(** * khaled-cord: the Socket.IO session and broadcast core of [server.js]

    A shallow embedding of the real-time part of [src/server.js]
    (lines 41-52 and 120-208): the JSON file helpers, the [online]
    presence object, the per-socket [user] property and the four socket
    handlers ["auth"], ["send-message"], ["send-image"], ["disconnect"].

    Modelling decisions, all visible in the definitions below:
    - a JavaScript string is its sequence of UTF-16 code units;
    - a JSON file either cannot be read, is empty, does not parse, or
      holds an array of well-formed records ([JSON.stringify] followed by
      [JSON.parse] is the identity on such records);
    - [Date.now()], [Math.random()] and the outcome of
      [fs.promises.writeFile] are inputs of the handler that uses them;
    - a handler is modelled twice: as a whole ([dispatch], [run]), which
      is what it does when nothing else runs before it ends, and segment
      by segment between its [await]s ([small_step], [exec]), where
      handlers interleave; [alone_is_dispatch] relates the two; a
      rejected promise is the [Rejected] outcome;
    - [io.emit] and [socket.emit] are recorded in the order they are
      issued; who receives an [io.emit] is computed from the set of live
      sockets ([receives]). *)

From stdpp Require Import base option list gmap strings.

#[local] Set Warnings "-clear-no-such-hyp".

(** ** JavaScript strings *)

Definition jsstring := list N.

Definition lit (s : string) : jsstring :=
  map Ascii.N_of_ascii (String.list_ascii_of_string s).

(** ECMAScript [WhiteSpace] and [LineTerminator] code points, the ones
    [String.prototype.trim] strips. *)
Definition is_white_space (c : N) : bool :=
  ((9 <=? c) && (c <=? 13) || (c =? 32) || (c =? 160) || (c =? 5760)
   || (8192 <=? c) && (c <=? 8202) || (c =? 8232) || (c =? 8233)
   || (c =? 8239) || (c =? 8287) || (c =? 12288) || (c =? 65279))%N.

Fixpoint trimStart (s : jsstring) : jsstring :=
  match s with
  | c :: s' => if is_white_space c then trimStart s' else s
  | [] => []
  end.

Definition trimEnd (s : jsstring) : jsstring :=
  reverse (trimStart (reverse s)).

Definition trim (s : jsstring) : jsstring := trimEnd (trimStart s).

(** [a || b] on strings: the empty string is the only falsy one. *)
Definition js_or (a b : jsstring) : jsstring :=
  match a with [] => b | _ => a end.

Definition digit36 (d : N) : N := (if d <? 10 then 48 + d else 87 + d)%N.

Fixpoint digits36 (fuel : nat) (n : N) (acc : jsstring) : jsstring :=
  match fuel with
  | O => acc
  | S fuel' =>
      let acc' := digit36 (n mod 36) :: acc in
      if (n / 36 =? 0)%N then acc' else digits36 fuel' (n / 36) acc'
  end.

(** [n.toString(36)] for a non-negative integer. *)
Definition toString36 (n : N) : jsstring :=
  digits36 (S (N.to_nat (N.log2 n))) n [].

(** ** Arrays *)

(** [arr.push(x)] *)
Definition push {A} (arr : list A) (x : A) : list A := arr ++ [x].

(** [arr.splice(0, n)]: the array without its first [n] elements. *)
Definition splice_front {A} (n : nat) (arr : list A) : list A := drop n arr.

(** [arr.slice(-k)]: start at [max (length - k) 0]. *)
Definition slice_last {A} (k : nat) (arr : list A) : list A :=
  drop (length arr - k) arr.

(** ** Records *)

Module User.
Record t := mk {
  id : jsstring;
  username : jsstring;
  passwordHash : jsstring;
  profile : jsstring;
  color : jsstring;
  createdAt : N
}.
End User.

(** The object built at line 143 (and 87, 104): no [passwordHash]. *)
Module SafeUser.
Record t := mk {
  id : jsstring;
  username : jsstring;
  profile : jsstring;
  color : jsstring
}.
End SafeUser.

Definition safe (user : User.t) : SafeUser.t :=
  {| SafeUser.id := User.id user;
     SafeUser.username := User.username user;
     SafeUser.profile := User.profile user;
     SafeUser.color := User.color user |}.

(** A message object carries either a [text] or an [image] key. *)
Inductive body :=
| Text (text : jsstring)
| Image (image : jsstring).

Module Message.
Record t := mk {
  id : jsstring;
  userId : jsstring;
  username : jsstring;
  profile : jsstring;
  color : jsstring;
  content : body;
  timestamp : N
}.
End Message.

(** ** JSON files *)

Inductive file (A : Type) : Type :=
| Unreadable          (* readFile rejects: no such file, I/O error *)
| EmptyText           (* reads as the empty text, parsed as "[]" *)
| Malformed           (* JSON.parse throws *)
| Json (data : list A).
Arguments Unreadable {A}.
Arguments EmptyText {A}.
Arguments Malformed {A}.
Arguments Json {A} data.

(** [readJSON]: every failure is caught and becomes the empty array. *)
Definition readJSON {A} (f : file A) : list A :=
  match f with
  | Json data => data
  | Unreadable | EmptyText | Malformed => []
  end.

(** What [fs.promises.writeFile] does: it succeeds, or it rejects and
    leaves the file in some state [residue]. *)
Inductive write_result :=
| WriteOk
| WriteFails (residue : file Message.t).

(** ** The server state *)

Definition SocketId := jsstring.

Record Hub := mkHub {
  users_file : file User.t;                       (* data/users.json *)
  messages_file : file Message.t;                 (* data/messages.json *)
  online : list (SocketId * SafeUser.t);          (* let online = {} *)
  sockets : gmap SocketId (option SafeUser.t)     (* live sockets, socket.user *)
}.

(** ** Outbound events *)

Inductive event :=
| AuthFailed
| UpdateUsers (users : list SafeUser.t)
| LoadMessages (messages : list Message.t)
| NewMessage (msg : Message.t).

Inductive emit :=
| SocketEmit (sid : SocketId) (e : event)    (* socket.emit(...) *)
| IoEmit (e : event).                        (* io.emit(...) *)

(** ** The [online] object: string keys, insertion order

    [Object.values] lists string keys in the order they were first set.
    (Keys that spell an array index would come first; a Socket.IO id is
    a 20-character token and never spells one.) *)

Fixpoint obj_get {V} (k : SocketId) (o : list (SocketId * V)) : option V :=
  match o with
  | [] => None
  | (k', v) :: o' => if decide (k = k') then Some v else obj_get k o'
  end.

(** [o[k] = v]: an existing key keeps its place, a new one goes last. *)
Fixpoint obj_set {V} (k : SocketId) (v : V) (o : list (SocketId * V))
  : list (SocketId * V) :=
  match o with
  | [] => [(k, v)]
  | (k', v') :: o' =>
      if decide (k = k') then (k, v) :: o' else (k', v') :: obj_set k v o'
  end.

(** [delete o[k]] *)
Fixpoint obj_delete {V} (k : SocketId) (o : list (SocketId * V))
  : list (SocketId * V) :=
  match o with
  | [] => []
  | (k', v') :: o' =>
      if decide (k = k') then obj_delete k o' else (k', v') :: obj_delete k o'
  end.

(** [Object.values(o)] *)
Definition Object_values {V} (o : list (SocketId * V)) : list V := o.*2.

(** ** Handlers as state-passing computations that may reject *)

Inductive outcome (A : Type) : Type :=
| Resolved (a : A)
| Rejected.
Arguments Resolved {A} a.
Arguments Rejected {A}.

Definition Handler (A : Type) : Type := Hub → outcome A * Hub * list emit.

Definition h_ret {A} (a : A) : Handler A := λ h, (Resolved a, h, []).

Definition h_bind {A B} (f : A → Handler B) (m : Handler A) : Handler B :=
  λ h, match m h with
       | (Resolved a, h1, out1) =>
           let '(r, h2, out2) := f a h1 in (r, h2, out1 ++ out2)
       | (Rejected, h1, out1) => (Rejected, h1, out1)
       end.

#[export] Instance Handler_ret : MRet Handler := @h_ret.
#[export] Instance Handler_bind : MBind Handler := @h_bind.

(** [await readJSON(USERS_FILE)] and [await readJSON(MESSAGES_FILE)] *)
Definition readJSON_users : Handler (list User.t) :=
  λ h, (Resolved (readJSON (users_file h)), h, []).

Definition readJSON_messages : Handler (list Message.t) :=
  λ h, (Resolved (readJSON (messages_file h)), h, []).

(** [await writeJSON(MESSAGES_FILE, data)] *)
Definition writeJSON_messages (data : list Message.t) (w : write_result)
  : Handler unit :=
  λ h, match w with
       | WriteOk =>
           (Resolved (),
            mkHub (users_file h) (Json data) (online h) (sockets h), [])
       | WriteFails residue =>
           (Rejected, mkHub (users_file h) residue (online h) (sockets h), [])
       end.

Definition get_socket_user (sid : SocketId) : Handler (option SafeUser.t) :=
  λ h, (Resolved (mjoin (sockets h !! sid)), h, []).

Definition set_socket_user (sid : SocketId) (u : SafeUser.t) : Handler unit :=
  λ h, (Resolved (),
        mkHub (users_file h) (messages_file h) (online h)
              (alter (λ _, Some u) sid (sockets h)), []).

Definition get_online : Handler (list (SocketId * SafeUser.t)) :=
  λ h, (Resolved (online h), h, []).

Definition put_online (o : list (SocketId * SafeUser.t)) : Handler unit :=
  λ h, (Resolved (),
        mkHub (users_file h) (messages_file h) o (sockets h), []).

Definition socket_emit (sid : SocketId) (e : event) : Handler unit :=
  λ h, (Resolved (), h, [SocketEmit sid e]).

Definition io_emit (e : event) : Handler unit :=
  λ h, (Resolved (), h, [IoEmit e]).

(** ** The handlers of [io.on("connection", ...)] *)

Definition MAX_MESSAGES : nat := 2000.
Definition HISTORY : nat := 500.

(** [socket.on("auth", async (userId) => ...)], lines 134-153. *)
Definition on_auth (sid : SocketId) (userId : jsstring) : Handler unit :=
  users ← readJSON_users;
  match List.find (λ u, bool_decide (User.id u = userId)) users with
  | None => socket_emit sid AuthFailed
  | Some user =>
      let socket_user := safe user in
      set_socket_user sid socket_user;;
      o ← get_online;
      put_online (obj_set sid socket_user o);;
      o ← get_online;
      io_emit (UpdateUsers (Object_values o));;
      messages ← readJSON_messages;
      let tail := slice_last HISTORY messages in
      socket_emit sid (LoadMessages tail)
  end.

(** The clock, the random source and the disk as one send sees them. *)
Record SendEnv := mkEnv {
  now_id : N;               (* Date.now() inside the id *)
  random36 : jsstring;      (* Math.random().toString(36,8) *)
  now_ts : N;               (* Date.now() of the timestamp *)
  write_file : write_result (* what writeFile does *)
}.

Definition make_msg (user : SafeUser.t) (c : body) (env : SendEnv)
  : Message.t :=
  {| Message.id := toString36 (now_id env) ++ lit "-" ++ random36 env;
     Message.userId := SafeUser.id user;
     Message.username := SafeUser.username user;
     Message.profile := js_or (SafeUser.profile user) [];
     Message.color := js_or (SafeUser.color user) (lit "#fff");
     Message.content := c;
     Message.timestamp := now_ts env |}.

(** [messages.push(msg); if (messages.length > 2000)
     messages.splice(0, messages.length - 2000)] *)
Definition push_bounded (messages : list Message.t) (msg : Message.t)
  : list Message.t :=
  let messages := push messages msg in
  if decide (MAX_MESSAGES < length messages)
  then splice_front (length messages - MAX_MESSAGES) messages
  else messages.

(** The common tail of both send handlers, lines 161-176 and 184-198. *)
Definition persist_and_broadcast (user : SafeUser.t) (c : body)
    (env : SendEnv) : Handler unit :=
  messages ← readJSON_messages;
  let msg := make_msg user c env in
  writeJSON_messages (push_bounded messages msg) (write_file env);;
  io_emit (NewMessage msg).

(** [socket.on("send-message", async (text) => ...)], lines 156-177. *)
Definition on_send_message (sid : SocketId) (text : jsstring) (env : SendEnv)
  : Handler unit :=
  su ← get_socket_user sid;
  match su with
  | None => mret ()
  | Some user =>
      let text := trim (js_or text []) in
      match text with
      | [] => mret ()
      | _ => persist_and_broadcast user (Text text) env
      end
  end.

(** [socket.on("send-image", async (imageUrl) => ...)], lines 180-199. *)
Definition on_send_image (sid : SocketId) (imageUrl : jsstring)
    (env : SendEnv) : Handler unit :=
  su ← get_socket_user sid;
  match su with
  | None => mret ()
  | Some user =>
      match imageUrl with
      | [] => mret ()
      | _ => persist_and_broadcast user (Image imageUrl) env
      end
  end.

(** [socket.on("disconnect", () => ...)], lines 201-207. *)
Definition on_disconnect (sid : SocketId) : Handler unit :=
  o ← get_online;
  match obj_get sid o with
  | Some _ =>
      put_online (obj_delete sid o);;
      o ← get_online;
      io_emit (UpdateUsers (Object_values o))
  | None => mret ()
  end.

(** ** The transport: which handler runs *)

Inductive input :=
| Connection (sid : SocketId)
| Auth (sid : SocketId) (userId : jsstring)
| SendMessage (sid : SocketId) (text : jsstring) (env : SendEnv)
| SendImage (sid : SocketId) (imageUrl : jsstring) (env : SendEnv)
| Disconnect (sid : SocketId).

Definition connected (h : Hub) (sid : SocketId) : Prop :=
  is_Some (sockets h !! sid).

(** A new socket has no [user] property. *)
Definition open_socket (sid : SocketId) : Handler unit :=
  λ h, (Resolved (),
        mkHub (users_file h) (messages_file h) (online h)
              (<[sid := None]> (sockets h)), []).

(** Socket.IO takes the socket out of the namespace before it fires
    ["disconnect"], so an [io.emit] from that handler does not reach it. *)
Definition close_socket (sid : SocketId) : Handler unit :=
  λ h, (Resolved (),
        mkHub (users_file h) (messages_file h) (online h)
              (delete sid (sockets h)), []).

(** One inbound event. The listeners exist only on live sockets, and
    Socket.IO gives a new socket an id no live socket has: other inputs
    never occur and are ignored. *)
Definition dispatch (i : input) : Handler unit :=
  λ h,
  match i with
  | Connection sid =>
      if decide (connected h sid) then h_ret () h else open_socket sid h
  | Auth sid userId =>
      if decide (connected h sid) then on_auth sid userId h else h_ret () h
  | SendMessage sid text env =>
      if decide (connected h sid) then on_send_message sid text env h
      else h_ret () h
  | SendImage sid url env =>
      if decide (connected h sid) then on_send_image sid url env h
      else h_ret () h
  | Disconnect sid =>
      if decide (connected h sid)
      then (close_socket sid;; on_disconnect sid) h
      else h_ret () h
  end.

(** What the runtime does when a handler's promise rejects and nobody
    catches it: Node before version 15 warns and goes on, later versions
    end the process. *)
Inductive on_rejection := KeepRunning | ExitProcess.

(** A run: the state after the inputs handled and everything emitted,
    in order. *)
Fixpoint run (policy : on_rejection) (h : Hub) (inputs : list input)
  : Hub * list emit :=
  match inputs with
  | [] => (h, [])
  | i :: rest =>
      let '(r, h1, out1) := dispatch i h in
      match r, policy with
      | Rejected, ExitProcess => (h1, out1)
      | _, _ => let '(h2, out2) := run policy h1 rest in (h2, out1 ++ out2)
      end
  end.

(** The events socket [sid] receives from [out], given the live sockets
    of [h]. *)
Definition receives (h : Hub) (sid : SocketId) (out : list emit)
  : list event :=
  omap (λ e, match e with
             | SocketEmit s ev => if decide (s = sid) then Some ev else None
             | IoEmit ev => if decide (connected h sid) then Some ev else None
             end) out.

(** The messages announced by ["new-message"] in [out]. *)
Definition new_messages (out : list emit) : list Message.t :=
  omap (λ e, match e with IoEmit (NewMessage m) => Some m | _ => None end) out.

(** [GET /api/messages], lines 121-124: the whole persisted log. *)
Definition api_messages (h : Hub) : list Message.t :=
  readJSON (messages_file h).

(** The server at start: nobody online, no socket. *)
Definition boot (users : file User.t) (messages : file Message.t) : Hub :=
  mkHub users messages [] ∅.

(** The HTTP routes (line 84) and the operator may rewrite the two files
    between socket events. *)
Definition set_files (users : file User.t) (messages : file Message.t)
    (h : Hub) : Hub :=
  mkHub users messages (online h) (sockets h).


(** [userId] as line 136 resolves it: the first record with that id. *)
Definition find_user (userId : jsstring) (users : list User.t)
  : option User.t :=
  List.find (λ u, bool_decide (User.id u = userId)) users.

(** The entries of the presence object stored under one key. *)
Definition entries_of (sid : SocketId) (o : list (SocketId * SafeUser.t))
  : list (SocketId * SafeUser.t) :=
  filter (λ p, p.1 = sid) o.


(** ** Specification-side notions *)

(** The [k] most recent elements of a log, oldest first: written from the
    words of the retention rule, not from the code. *)
Definition most_recent {A} (k : nat) (log : list A) : list A :=
  reverse (take k (reverse log)).

(** Two user files that differ at most in password digests. *)
Definition scrub (u : User.t) : User.t :=
  User.mk (User.id u) (User.username u) [] (User.profile u) (User.color u)
          (User.createdAt u).

Definition same_but_hashes (f1 f2 : file User.t) : Prop :=
  match f1, f2 with
  | Json d1, Json d2 => scrub <$> d1 = scrub <$> d2
  | Unreadable, Unreadable | EmptyText, EmptyText | Malformed, Malformed => True
  | _, _ => False
  end.

(** Everything socket [sid] receives during a run. *)
Fixpoint delivered (policy : on_rejection) (sid : SocketId) (h : Hub)
    (inputs : list input) : list event :=
  match inputs with
  | [] => []
  | i :: rest =>
      let '(r, h1, out1) := dispatch i h in
      match r, policy with
      | Rejected, ExitProcess => receives h1 sid out1
      | _, _ => receives h1 sid out1 ++ delivered policy sid h1 rest
      end
  end.


(** Two servers that agree on everything but password digests. *)
Definition hubs_agree (h1 h2 : Hub) : Prop :=
  same_but_hashes (users_file h1) (users_file h2) ∧
  messages_file h1 = messages_file h2 ∧
  online h1 = online h2 ∧
  sockets h1 = sockets h2.

(** What a send asks to append when its payload passes the handler's
    checks (lines 158-159 and 182): the socket, the body, the environment. *)
Definition accepted_body (i : input) : option (SocketId * body * SendEnv) :=
  match i with
  | SendMessage sid text env =>
      match trim text with
      | [] => None
      | t => Some (sid, Text t, env)
      end
  | SendImage sid url env =>
      match url with
      | [] => None
      | _ => Some (sid, Image url, env)
      end
  | _ => None
  end.

(** ** A small lobby, used to exercise the statements *)

Definition alice : User.t :=
  User.mk (lit "u1") (lit "alice") (lit "5e88") (lit "/uploads/a.png")
          (lit "#112233") 1700000000000.

Definition bob : User.t :=
  User.mk (lit "u2") (lit "bob") (lit "2bb8") [] (lit "#445566") 1700000000001.

Definition s1 : SocketId := lit "s1".
Definition s2 : SocketId := lit "s2".

(** Socket [s1] has authenticated as alice, socket [s2] has not. *)
Definition lobby : Hub :=
  (run KeepRunning (boot (Json [alice; bob]) (Json []))
       [Connection s1; Connection s2; Auth s1 (lit "u1")]).1.

Definition env_ok : SendEnv :=
  mkEnv 1700000000002 (lit "0.4fzyo82m") 1700000000002 WriteOk.

Definition env_fail : SendEnv :=
  mkEnv 1700000000003 (lit "0.k2j5x8q1") 1700000000003 (WriteFails Malformed).

(** The lobby after alice's digest was replaced in the users file. *)
Definition rehashed_lobby : Hub :=
  set_files (Json [User.mk (lit "u1") (lit "alice") (lit "0000")
                     (lit "/uploads/a.png") (lit "#112233") 1700000000000;
                   bob])
            (messages_file lobby) lobby.

Definition evening : list input :=
  [Auth s2 (lit "u2"); SendMessage s2 (lit "yo") env_ok;
   Auth s1 (lit "u1"); Disconnect s1].

(** ** Number formatting used by [randomColor] *)

(** [n.toString(radix)] for a non-negative integer and a radix from 2
    to 36; the digit characters are those of [digit36]. *)
Fixpoint digits_radix (radix : N) (fuel : nat) (n : N) (acc : jsstring)
  : jsstring :=
  match fuel with
  | O => acc
  | S fuel' =>
      let acc' := digit36 (n mod radix) :: acc in
      if (n / radix =? 0)%N then acc' else digits_radix radix fuel' (n / radix) acc'
  end.

Definition toString_radix (radix n : N) : jsstring :=
  digits_radix radix (S (N.to_nat (N.log2 n))) n [].

Definition toString16 (n : N) : jsstring := toString_radix 16 n.

(** [s.padStart(targetLength, padString)] *)
Definition padStart (s : jsstring) (targetLength : nat) (padString : jsstring)
  : jsstring :=
  if decide (targetLength ≤ length s) then s
  else match padString with
       | [] => s
       | _ => take (targetLength - length s)
                   (mjoin (replicate (targetLength - length s) padString)) ++ s
       end.

(** [randomColor()], lines 56-58; [n] is
    [Math.floor(Math.random()*16777215)]. *)
Definition randomColor (n : N) : jsstring :=
  lit "#" ++ padStart (toString16 n) 6 (lit "0").

(** Reading digits back, to state that formatting loses nothing. *)
Definition digit_value (c : N) : N := (if c <? 58 then c - 48 else c - 87)%N.

Definition parse_radix (radix : N) (v : N) (s : jsstring) : N :=
  fold_left (λ v c, v * radix + digit_value c)%N s v.

Definition is_digit36 (c : N) : Prop :=
  (48 ≤ c ≤ 57 ∨ 97 ≤ c ≤ 122)%N.

Definition is_hex_digit (c : N) : Prop :=
  (48 ≤ c ≤ 57 ∨ 97 ≤ c ≤ 102)%N.

(** ** The HTTP routes, lines 62-124 *)

(** The JSON bodies the routes send. *)
Inductive json_body :=
| ErrorBody (error : jsstring)                 (* { ok:false, error } *)
| UserBody (user : SafeUser.t)                 (* { ok:true, user } *)
| FailBody                                     (* { ok:false } *)
| UrlBody (url : jsstring)                     (* { ok:true, url } *)
| MessagesBody (messages : list Message.t).    (* { ok:true, messages } *)

Record response := mkResponse {
  status : N;
  body_of : json_body
}.

(** [res.status(400).json(b)] and [res.json(b)] *)
Definition bad_request (b : json_body) : response := mkResponse 400 b.
Definition ok (b : json_body) : response := mkResponse 200 b.

(** [x || d] when [x] may be [undefined]. *)
Definition js_or_undefined (x : option jsstring) (d : jsstring) : jsstring :=
  match x with
  | Some (c :: s) => c :: s
  | _ => d
  end.

(** What [writeFile] does to [users.json]. *)
Inductive users_write_result :=
| UsersWriteOk
| UsersWriteFails (residue : file User.t).

(** [await writeJSON(USERS_FILE, data)] *)
Definition writeJSON_users (data : list User.t) (w : users_write_result)
  : Handler unit :=
  λ h, match w with
       | UsersWriteOk =>
           (Resolved (),
            mkHub (Json data) (messages_file h) (online h) (sockets h), [])
       | UsersWriteFails residue =>
           (Rejected, mkHub residue (messages_file h) (online h) (sockets h), [])
       end.

(** The clock, the random source and the disk as one registration sees
    them. *)
Record RegisterEnv := mkRegisterEnv {
  reg_now : N;                    (* Date.now() inside the id *)
  reg_random : jsstring;          (* Math.random().toString(36).slice(2,8) *)
  reg_color : N;                  (* Math.floor(Math.random()*16777215) *)
  reg_created : N;                (* Date.now() of createdAt *)
  reg_write : users_write_result  (* what writeFile does *)
}.

Section routes.
(** [String.prototype.toLowerCase] and the SHA-256 hex digest of
    [crypto] are taken as given. *)
Variable toLowerCase : jsstring → jsstring.
Variable sha256hex : jsstring → jsstring.

(** [hashPassword(pw)], lines 53-55. *)
Definition hashPassword (pw : jsstring) : jsstring := sha256hex pw.

(** [users.find(u => u.username.toLowerCase() === username.toLowerCase())] *)
Definition find_by_name (username : jsstring) (users : list User.t)
  : option User.t :=
  List.find
    (λ u, bool_decide (toLowerCase (User.username u) = toLowerCase username))
    users.

(** The record built at lines 73-82; [file] is [req.file.filename]. *)
Definition new_user (username password : jsstring) (file : option jsstring)
    (env : RegisterEnv) : User.t :=
  let id := toString36 (reg_now env) ++ lit "-" ++ reg_random env in
  let profile := match file with
                 | Some filename => lit "/uploads/" ++ filename
                 | None => []
                 end in
  {| User.id := id;
     User.username := username;
     User.passwordHash := hashPassword password;
     User.profile := profile;
     User.color := randomColor (reg_color env);
     User.createdAt := reg_created env |}.

(** [app.post("/api/register", ...)], lines 63-89: the form fields
    [username] and [password] and the uploaded file, each possibly
    absent. *)
Definition api_register (username password file : option jsstring)
    (env : RegisterEnv) : Handler response :=
  let username := trim (js_or_undefined username []) in
  let password := js_or_undefined password [] in
  match username, password with
  | _ :: _, _ :: _ =>
      users ← readJSON_users;
      match find_by_name username users with
      | Some _ =>
          mret (bad_request (ErrorBody (lit "username already taken")))
      | None =>
          let user := new_user username password file env in
          writeJSON_users (push users user) (reg_write env);;
          mret (ok (UserBody (safe user)))
      end
  | _, _ =>
      mret (bad_request (ErrorBody (lit "username & password required")))
  end.

(** [app.post("/api/login", ...)], lines 92-106. *)
Definition api_login (username password : option jsstring)
  : Handler response :=
  match username, password with
  | Some ((_ :: _) as username), Some ((_ :: _) as password) =>
      users ← readJSON_users;
      match find_by_name username users with
      | None => mret (bad_request (ErrorBody (lit "invalid credentials")))
      | Some user =>
          if bool_decide (User.passwordHash user ≠ hashPassword password)
          then mret (bad_request (ErrorBody (lit "invalid credentials")))
          else mret (ok (UserBody (safe user)))
      end
  | _, _ =>
      mret (bad_request (ErrorBody (lit "username & password required")))
  end.

(** Usernames are pairwise different when case is ignored. *)
Definition names_unique (users : list User.t) : Prop :=
  NoDup ((λ u, toLowerCase (User.username u)) <$> users).
End routes.

(** [app.post("/upload-chat", ...)] and [app.post("/upload-profile", ...)],
    lines 109-118; [file] is [req.file.filename]. *)
Definition upload_chat (file : option jsstring) : response :=
  match file with
  | None => bad_request FailBody
  | Some filename => ok (UrlBody (lit "/uploads/" ++ filename))
  end.

Definition upload_profile (file : option jsstring) : response :=
  match file with
  | None => bad_request FailBody
  | Some filename => ok (UrlBody (lit "/uploads/" ++ filename))
  end.

(** The three error bodies of the account routes. *)
Definition required_response : response :=
  bad_request (ErrorBody (lit "username & password required")).
Definition taken_response : response :=
  bad_request (ErrorBody (lit "username already taken")).
Definition invalid_response : response :=
  bad_request (ErrorBody (lit "invalid credentials")).

(** Stand-ins for the two given functions, to run the routes on
    examples: lower-casing of A-Z only, and a digest that is not one. *)
Definition ascii_lower (s : jsstring) : jsstring :=
  (λ c, if (65 <=? c) && (c <=? 90) then c + 32 else c)%N <$> s.

Definition toy_digest (s : jsstring) : jsstring := lit "h:" ++ reverse s.

Definition carol_env : RegisterEnv :=
  mkRegisterEnv 1700000000005 (lit "q3v9k1") 1193046 1700000000005 UsersWriteOk.

(** The lobby with a message file that does not parse, and a
    registration of carol on the lobby. *)
Definition broken_lobby : Hub := set_files (users_file lobby) Malformed lobby.

Definition carol_name : option jsstring := Some (lit "  Carol ").
Definition carol_pw : option jsstring := Some (lit "pw").
Definition carol_file : option jsstring := Some (lit "17-abc.png").

Definition carol : User.t :=
  new_user toy_digest (lit "Carol") (lit "pw") carol_file carol_env.

Definition with_carol : Hub :=
  (api_register ascii_lower toy_digest carol_name carol_pw carol_file
                carol_env lobby).1.2.

(** ** Handlers segment by segment

    An [async] handler runs up to its next [await] (lines 135, 150, 161,
    174, 184, 196); there it is suspended until the file operation it
    waits for has been done, and other handlers run in between. A step
    of the server is the start of a handler, a file operation of a
    suspended handler, the resumption of a handler whose operation is
    done, or a rewrite of the files by someone else. A file operation
    hits the disk at once. Socket.IO is taken never to give a new socket
    the id of an earlier one. *)

(** A suspended handler, with the result of its file operation once
    that is done. *)
Inductive task :=
| AuthUsers (sid : SocketId) (userId : jsstring)
    (got : option (list User.t))                         (* at line 135 *)
| AuthMessages (sid : SocketId)
    (got : option (list Message.t))                      (* at line 150 *)
| SendRead (sid : SocketId) (c : body) (env : SendEnv)
    (got : option (list Message.t))                      (* at lines 161, 184 *)
| SendWrite (sid : SocketId) (msg : Message.t) (data : list Message.t)
    (w : write_result) (done : option bool).             (* at lines 174, 196 *)

Definition task_socket (t : task) : SocketId :=
  match t with
  | AuthUsers sid _ _ | AuthMessages sid _ | SendRead sid _ _ _
  | SendWrite sid _ _ _ _ => sid
  end.

(** The server with its suspended handlers; [detached] keeps the [user]
    property of the socket objects that were closed, which suspended
    handlers still hold. *)
Record Server := mkServer {
  hub : Hub;
  detached : gmap SocketId (option SafeUser.t);
  tasks : list task
}.

Definition spawn (t : task) (σ : Server) : Server :=
  mkServer (hub σ) (detached σ) (tasks σ ++ [t]).

Definition settle (k : nat) (t : task) (σ : Server) : Server :=
  mkServer (hub σ) (detached σ) (<[k := t]> (tasks σ)).

Definition finish (k : nat) (σ : Server) : Server :=
  mkServer (hub σ) (detached σ) (delete k (tasks σ)).

(** [socket.user], read from the socket object, live or closed. *)
Definition socket_user (σ : Server) (sid : SocketId) : option SafeUser.t :=
  match sockets (hub σ) !! sid with
  | Some user => user
  | None => mjoin (detached σ !! sid)
  end.

(** [socket.user = u], written to the socket object, live or closed. *)
Definition bind_user (sid : SocketId) (u : SafeUser.t) (σ : Server) : Server :=
  if decide (connected (hub σ) sid)
  then mkServer (set_socket_user sid u (hub σ)).1.2 (detached σ) (tasks σ)
  else mkServer (hub σ) (alter (λ _, Some u) sid (detached σ)) (tasks σ).

(** An inbound event: the handler runs up to its first [await]. The
    connection and disconnect handlers have none. *)
Definition start (i : input) (σ : Server) : Server * list emit :=
  let h := hub σ in
  match i with
  | Connection sid =>
      if decide (is_Some (detached σ !! sid)) then (σ, [])
      else let '(_, h', out) := dispatch i h in
           (mkServer h' (detached σ) (tasks σ), out)
  | Auth sid userId =>
      if decide (connected h sid)
      then (spawn (AuthUsers sid userId None) σ, [])
      else (σ, [])
  | SendMessage sid text env =>
      if decide (connected h sid) then
        match mjoin (sockets h !! sid) with
        | None => (σ, [])
        | Some _ =>
            match trim (js_or text []) with
            | [] => (σ, [])
            | text => (spawn (SendRead sid (Text text) env None) σ, [])
            end
        end
      else (σ, [])
  | SendImage sid imageUrl env =>
      if decide (connected h sid) then
        match mjoin (sockets h !! sid) with
        | None => (σ, [])
        | Some _ =>
            match imageUrl with
            | [] => (σ, [])
            | _ => (spawn (SendRead sid (Image imageUrl) env None) σ, [])
            end
        end
      else (σ, [])
  | Disconnect sid =>
      match sockets h !! sid with
      | Some user =>
          let '(_, h', out) := dispatch i h in
          (mkServer h' (<[sid := user]> (detached σ)) (tasks σ), out)
      | None => (σ, [])
      end
  end.

(** The file operation the [k]-th suspended handler waits for. *)
Definition io (k : nat) (σ : Server) : Server :=
  let h := hub σ in
  match tasks σ !! k with
  | Some (AuthUsers sid userId None) =>
      settle k (AuthUsers sid userId (Some (readJSON (users_file h)))) σ
  | Some (AuthMessages sid None) =>
      settle k (AuthMessages sid (Some (readJSON (messages_file h)))) σ
  | Some (SendRead sid c env None) =>
      settle k (SendRead sid c env (Some (readJSON (messages_file h)))) σ
  | Some (SendWrite sid msg data w None) =>
      match w with
      | WriteOk =>
          mkServer (mkHub (users_file h) (Json data) (online h) (sockets h))
                   (detached σ)
                   (<[k := SendWrite sid msg data w (Some true)]> (tasks σ))
      | WriteFails residue =>
          mkServer (mkHub (users_file h) residue (online h) (sockets h))
                   (detached σ)
                   (<[k := SendWrite sid msg data w (Some false)]> (tasks σ))
      end
  | _ => σ
  end.

(** The [k]-th suspended handler goes on, up to its next [await] or its
    end. An emit to a closed socket reaches no one. *)
Definition resume (k : nat) (σ : Server) : Server * list emit :=
  match tasks σ !! k with
  | Some (AuthUsers sid userId (Some users)) =>
      match List.find (λ u, bool_decide (User.id u = userId)) users with
      | None => (finish k σ, [SocketEmit sid AuthFailed])
      | Some user =>
          let σ1 := bind_user sid (safe user) σ in
          let h1 := hub σ1 in
          let o := obj_set sid (safe user) (online h1) in
          (mkServer (mkHub (users_file h1) (messages_file h1) o (sockets h1))
                    (detached σ1)
                    (<[k := AuthMessages sid None]> (tasks σ)),
           [IoEmit (UpdateUsers (Object_values o))])
      end
  | Some (AuthMessages sid (Some messages)) =>
      (finish k σ, [SocketEmit sid (LoadMessages (slice_last HISTORY messages))])
  | Some (SendRead sid c env (Some messages)) =>
      match socket_user σ sid with
      | None => (finish k σ, [])
      | Some user =>
          let msg := make_msg user c env in
          (settle k (SendWrite sid msg (push_bounded messages msg)
                       (write_file env) None) σ, [])
      end
  | Some (SendWrite sid msg data w (Some true)) =>
      (finish k σ, [IoEmit (NewMessage msg)])
  | Some (SendWrite sid msg data w (Some false)) => (finish k σ, [])
  | _ => (σ, [])
  end.

Inductive step :=
| Start (i : input)
| Io (k : nat)
| Resume (k : nat)
| Disk (users : file User.t) (messages : file Message.t).

Definition small_step (s : step) (σ : Server) : Server * list emit :=
  match s with
  | Start i => start i σ
  | Io k => (io k σ, [])
  | Resume k => resume k σ
  | Disk users messages =>
      (mkServer (set_files users messages (hub σ)) (detached σ) (tasks σ), [])
  end.

Fixpoint exec (σ : Server) (steps : list step) : Server * list emit :=
  match steps with
  | [] => (σ, [])
  | s :: rest =>
      let '(σ1, out1) := small_step s σ in
      let '(σ2, out2) := exec σ1 rest in
      (σ2, out1 ++ out2)
  end.

(** The states the server can be in, handlers interleaved in any way. *)
Inductive reached : Server → Prop :=
| reached_boot users messages :
    reached (mkServer (boot users messages) ∅ [])
| reached_step s σ : reached σ → reached (small_step s σ).1.

(** A handler suspended at line 135 on socket [sid]. *)
Definition awaits_users (sid : SocketId) (t : task) : Prop :=
  match t with
  | AuthUsers s _ _ => s = sid
  | _ => False
  end.

(** The states reached when no socket is closed while an ["auth"] on it
    is suspended at line 135. *)
Inductive calm_reached : Server → Prop :=
| calm_boot users messages :
    calm_reached (mkServer (boot users messages) ∅ [])
| calm_step s σ :
    calm_reached σ →
    (∀ sid, s = Start (Disconnect sid) →
            Forall (λ t, ¬ awaits_users sid t) (tasks σ)) →
    calm_reached (small_step s σ).1.

(** The steps of one handler that runs with nothing in between, when
    [k] handlers are suspended; and of handlers run one after another. *)
Definition alone (k : nat) (i : input) : list step :=
  [Start i; Io k; Resume k; Io k; Resume k].

Definition serial (k : nat) (inputs : list input) : list step :=
  inputs ≫= alone k.

(** The message an input asks to append: the one an accepted send from a
    socket that carries a user is to persist and announce. *)
Definition sent_message (h : Hub) (i : input) : option Message.t :=
  match accepted_body i with
  | Some (sid, c, env) =>
      match sockets h !! sid with
      | Some (Some user) => Some (make_msg user c env)
      | _ => None
      end
  | None => None
  end.


(** ** Runs used to exercise the interleaved statements *)

Definition lobby_server : Server := mkServer lobby ∅ [].





(** A socket closes while its ["auth"] waits for the users file. *)
Definition closing_during_auth : list step :=
  [Start (Connection s1); Start (Auth s1 (lit "u1")); Io 0;
   Start (Disconnect s1); Resume 0; Io 0; Resume 0].

Definition booted : Server := mkServer (boot (Json [alice; bob]) (Json [])) ∅ [].


(** Where it stands after [closing_during_auth]. *)
Definition after_closing_during_auth : Server * list emit :=
  exec booted closing_during_auth.

(** A socket the server has seen: live, or closed and left behind. *)
Definition known_socket (σ : Server) (sid : SocketId) : Prop :=
  connected (hub σ) sid ∨ is_Some (detached σ !! sid).

(** What holds of presence however handlers interleave: keys are unique,
    the entry of a live socket is its [user], and entries and suspended
    handlers belong to sockets the server has seen. *)
Definition server_ok (σ : Server) : Prop :=
  NoDup (online (hub σ)).*1 ∧
  (∀ sid user, sockets (hub σ) !! sid = Some user →
               obj_get sid (online (hub σ)) = user) ∧
  (∀ sid, sid ∈ (online (hub σ)).*1 → known_socket σ sid) ∧
  Forall (λ t, known_socket σ (task_socket t)) (tasks σ).

(** What holds in addition when no socket is closed during its auth:
    entries, and handlers suspended at line 135, belong to live sockets. *)
Definition server_calm (σ : Server) : Prop :=
  (∀ sid, sid ∈ (online (hub σ)).*1 → connected (hub σ) sid) ∧
  Forall (λ t, ∀ sid, awaits_users sid t → connected (hub σ) sid) (tasks σ).

(** * Properties *)

Ltac unfold_handler :=
  unfold dispatch, on_auth, on_send_message, on_send_image, on_disconnect,
    persist_and_broadcast, close_socket, open_socket, readJSON_users,
    readJSON_messages, writeJSON_messages, get_socket_user, set_socket_user,
    get_online, put_online, socket_emit, io_emit, mbind, mret,
    Handler_bind, Handler_ret, h_bind, h_ret in *.

(** ** Strings and arrays *)

Lemma js_or_nil (a : jsstring) : js_or a [] = a.
Proof. by destruct a. Qed.

Lemma trimStart_nil_iff (s : jsstring) :
  trimStart s = [] ↔ Forall (λ c, is_white_space c = true) s.
Proof.
  induction s as [|c s IH]; simpl.
  - split; [constructor | done].
  - destruct (is_white_space c) eqn:Hc.
    + rewrite IH. split; [by constructor | by inversion 1].
    + split; [done | inversion 1; congruence].
Qed.

Lemma trimStart_head (s : jsstring) c s' :
  trimStart s = c :: s' → is_white_space c = false.
Proof.
  induction s as [|d s IH]; simpl; [done|].
  destruct (is_white_space d) eqn:Hd; [done|]. by intros [= <- _].
Qed.

Lemma trim_nil_iff (s : jsstring) :
  trim s = [] ↔ Forall (λ c, is_white_space c = true) s.
Proof.
  unfold trim, trimEnd. split.
  - intros H. apply (f_equal reverse) in H. rewrite reverse_involutive in H.
    change (reverse []) with (@nil N) in H.
    apply trimStart_nil_iff in H. rewrite Forall_reverse in H.
    destruct (trimStart s) as [|c s'] eqn:E; [by apply trimStart_nil_iff|].
    apply trimStart_head in E. apply Forall_cons in H as [H _]. congruence.
  - intros H. by apply trimStart_nil_iff in H as ->.
Qed.

Lemma most_recent_drop {A} k (l : list A) :
  most_recent k l = drop (length l - k) l.
Proof. unfold most_recent. by rewrite take_reverse, reverse_involutive. Qed.




Lemma push_bounded_most_recent messages msg :
  push_bounded messages msg = most_recent MAX_MESSAGES (messages ++ [msg]).
Proof.
  unfold push_bounded, push, splice_front. rewrite most_recent_drop.
  case_decide as H; [done|].
  by replace (length (messages ++ [msg]) - MAX_MESSAGES) with 0 by lia.
Qed.

(** ** The presence object *)

Section obj.
Context {V : Type}.
Implicit Types (o : list (SocketId * V)) (k : SocketId) (v : V).

Lemma obj_get_None k o : obj_get k o = None ↔ k ∉ o.*1.
Proof.
  induction o as [|[k' v'] o IH]; simpl.
  - split; [intros _; apply not_elem_of_nil | done].
  - case_decide as Hk; subst.
    + split; [done | intros []; left].
    + rewrite IH, not_elem_of_cons. naive_solver.
Qed.

Lemma obj_get_set k k' v o :
  obj_get k' (obj_set k v o) = if decide (k' = k) then Some v else obj_get k' o.
Proof.
  induction o as [|[k0 v0] o IH]; simpl.
  - by repeat case_decide.
  - destruct (decide (k = k0)) as [->|Hk]; simpl.
    + by destruct (decide (k' = k0)).
    + destruct (decide (k' = k0)) as [->|Hk']; [by rewrite decide_False|].
      apply IH.
Qed.

Lemma obj_get_delete k k' o :
  obj_get k' (obj_delete k o) = if decide (k' = k) then None else obj_get k' o.
Proof.
  induction o as [|[k0 v0] o IH]; simpl.
  - by case_decide.
  - destruct (decide (k = k0)) as [->|Hk]; simpl.
    + rewrite IH. by destruct (decide (k' = k0)).
    + destruct (decide (k' = k0)) as [->|Hk']; [by rewrite decide_False|].
      apply IH.
Qed.

Lemma obj_set_keys k v o :
  ∀ x, x ∈ (obj_set k v o).*1 ↔ x = k ∨ x ∈ o.*1.
Proof.
  induction o as [|[k0 v0] o IH]; intros x; simpl.
  - rewrite list_elem_of_singleton. rewrite elem_of_nil. naive_solver.
  - case_decide; subst; simpl; rewrite !elem_of_cons, ?IH; naive_solver.
Qed.

Lemma obj_set_NoDup k v o : NoDup o.*1 → NoDup (obj_set k v o).*1.
Proof.
  induction o as [|[k0 v0] o IH]; simpl; intros Hnd.
  - apply NoDup_singleton.
  - apply NoDup_cons in Hnd as [Hk0 Hnd].
    case_decide; subst; simpl; apply NoDup_cons; split; auto.
    rewrite obj_set_keys. naive_solver.
Qed.

Lemma obj_delete_keys k o :
  ∀ x, x ∈ (obj_delete k o).*1 ↔ x ≠ k ∧ x ∈ o.*1.
Proof.
  induction o as [|[k0 v0] o IH]; intros x; simpl.
  - rewrite elem_of_nil. naive_solver.
  - case_decide; subst; simpl; rewrite ?elem_of_cons, IH; naive_solver.
Qed.

Lemma obj_delete_NoDup k o : NoDup o.*1 → NoDup (obj_delete k o).*1.
Proof.
  induction o as [|[k0 v0] o IH]; simpl; intros Hnd; [done|].
  apply NoDup_cons in Hnd as [Hk0 Hnd].
  case_decide; subst; simpl; auto.
  apply NoDup_cons; split; auto. rewrite obj_delete_keys. naive_solver.
Qed.

Lemma filter_key_absent k o :
  k ∉ o.*1 → filter (λ p : SocketId * V, p.1 = k) o = [].
Proof.
  induction o as [|[k0 v0] o IH]; simpl; [done|].
  rewrite not_elem_of_cons. intros [Hne Hnin].
  rewrite filter_cons_False by (simpl; congruence). auto.
Qed.

End obj.

(** ** Resolving a user id *)

Lemma find_user_Some userId users u :
  find_user userId users = Some u → u ∈ users ∧ User.id u = userId.
Proof.
  unfold find_user. intros H. apply find_some in H as [Hin Hid].
  split; [by apply list_elem_of_In | by apply bool_decide_eq_true in Hid].
Qed.

Lemma find_user_None userId users :
  find_user userId users = None ↔ ∀ u, u ∈ users → User.id u ≠ userId.
Proof.
  unfold find_user. split.
  - intros H u Hin Hid. apply list_elem_of_In in Hin.
    apply (find_none _ _ H) in Hin. by apply bool_decide_eq_false in Hin.
  - intros H. destruct (List.find _ users) as [u|] eqn:E; [|done].
    apply (find_user_Some userId users u) in E as [Hin Hid]. by apply H in Hin.
Qed.


(** ** What each handler computes *)

Lemma on_auth_unknown sid userId h :
  find_user userId (readJSON (users_file h)) = None →
  on_auth sid userId h = (Resolved (), h, [SocketEmit sid AuthFailed]).
Proof. unfold find_user. intros H. unfold_handler. by rewrite H. Qed.

Lemma on_auth_known sid userId h user :
  find_user userId (readJSON (users_file h)) = Some user →
  on_auth sid userId h =
    (Resolved (),
     mkHub (users_file h) (messages_file h)
           (obj_set sid (safe user) (online h))
           (alter (λ _, Some (safe user)) sid (sockets h)),
     [IoEmit (UpdateUsers (Object_values (obj_set sid (safe user) (online h))));
      SocketEmit sid
        (LoadMessages (slice_last HISTORY (readJSON (messages_file h))))]).
Proof. unfold find_user. intros H. unfold_handler. by rewrite H. Qed.

Lemma persist_ok user c env h :
  write_file env = WriteOk →
  persist_and_broadcast user c env h =
    (Resolved (),
     mkHub (users_file h)
           (Json (push_bounded (readJSON (messages_file h)) (make_msg user c env)))
           (online h) (sockets h),
     [IoEmit (NewMessage (make_msg user c env))]).
Proof. intros H. unfold_handler. simpl. by rewrite H. Qed.

Lemma persist_fails user c env residue h :
  write_file env = WriteFails residue →
  persist_and_broadcast user c env h =
    (Rejected, mkHub (users_file h) residue (online h) (sockets h), []).
Proof. intros H. unfold_handler. simpl. by rewrite H. Qed.

Lemma on_send_message_eq sid text env h :
  on_send_message sid text env h =
    match mjoin (sockets h !! sid), trim text with
    | Some user, c :: t => persist_and_broadcast user (Text (c :: t)) env h
    | _, _ => (Resolved (), h, [])
    end.
Proof.
  unfold on_send_message, get_socket_user, mbind, mret, Handler_bind,
    Handler_ret, h_bind, h_ret. rewrite js_or_nil.
  destruct (mjoin (sockets h !! sid)) as [user|]; [|done].
  destruct (trim text) as [|c t]; [done|].
  destruct (persist_and_broadcast _ _ _ h) as [[r h2] out2]. done.
Qed.

Lemma on_send_image_eq sid url env h :
  on_send_image sid url env h =
    match mjoin (sockets h !! sid), url with
    | Some user, c :: t => persist_and_broadcast user (Image (c :: t)) env h
    | _, _ => (Resolved (), h, [])
    end.
Proof.
  unfold on_send_image, get_socket_user, mbind, mret, Handler_bind,
    Handler_ret, h_bind, h_ret.
  destruct (mjoin (sockets h !! sid)) as [user|]; [|done].
  destruct url as [|c t]; [done|].
  destruct (persist_and_broadcast _ _ _ h) as [[r h2] out2]. done.
Qed.

Lemma on_disconnect_eq sid h :
  on_disconnect sid h =
    match obj_get sid (online h) with
    | Some _ =>
        (Resolved (),
         mkHub (users_file h) (messages_file h) (obj_delete sid (online h))
               (sockets h),
         [IoEmit (UpdateUsers (Object_values (obj_delete sid (online h))))])
    | None => (Resolved (), h, [])
    end.
Proof. unfold_handler. simpl. by destruct (obj_get sid (online h)). Qed.

Lemma dispatch_disconnect sid h :
  connected h sid →
  dispatch (Disconnect sid) h =
    on_disconnect sid
      (mkHub (users_file h) (messages_file h) (online h)
             (delete sid (sockets h))).
Proof.
  intros Hc. unfold dispatch. rewrite decide_True by done.
  unfold close_socket, mbind, Handler_bind, h_bind.
  by destruct (on_disconnect sid _) as [[r h2] out2].
Qed.

(** The send handlers touch nothing but the message file. *)
Lemma persist_frame user c env h :
  let h' := (persist_and_broadcast user c env h).1.2 in
  online h' = online h ∧ sockets h' = sockets h ∧ users_file h' = users_file h.
Proof.
  destruct (write_file env) as [|residue] eqn:Hw.
  - by rewrite (persist_ok _ _ _ _ Hw).
  - by rewrite (persist_fails _ _ _ _ _ Hw).
Qed.

Lemma send_frame i h :
  match i with SendMessage _ _ _ | SendImage _ _ _ => True | _ => False end →
  let h' := (dispatch i h).1.2 in
  online h' = online h ∧ sockets h' = sockets h ∧ users_file h' = users_file h.
Proof.
  destruct i as [| |sid text env|sid url env|]; try done; intros _;
    unfold dispatch; case_decide; try done.
  - rewrite on_send_message_eq.
    destruct (mjoin _) as [user|]; [|done]. destruct (trim text); [done|].
    apply persist_frame.
  - rewrite on_send_image_eq.
    destruct (mjoin _) as [user|]; [|done]. destruct url; [done|].
    apply persist_frame.
Qed.

(** ** Presence agrees with the sessions in every reachable state *)







(** ** The auth handshake *)

Lemma connected_alter h f sid c :
  is_Some (alter f sid (sockets h) !! c) ↔ connected h c.
Proof.
  unfold connected. rewrite lookup_alter. case_decide; [subst|done].
  by rewrite fmap_is_Some.
Qed.


(** C2. When no user record in the users file has id [userId], an
    ["auth"] event on a live socket without a user changes nothing: the
    socket still has no user, the presence object and the files are the
    same, and the only emission is ["auth-failed"] to the requesting
    socket, which no other socket receives. *)
Theorem auth_unknown_user h sid userId :
  sockets h !! sid = Some None →
  (∀ u, u ∈ readJSON (users_file h) → User.id u ≠ userId) →
  ∃ h',
    dispatch (Auth sid userId) h = (Resolved (), h', [SocketEmit sid AuthFailed]) ∧
    sockets h' !! sid = Some None ∧
    online h' = online h ∧ h' = h ∧
    receives h' sid [SocketEmit sid AuthFailed] = [AuthFailed] ∧
    ∀ c, c ≠ sid → receives h' c [SocketEmit sid AuthFailed] = [].
Proof.
  intros Hs Hnone. apply find_user_None in Hnone. exists h.
  split. { unfold dispatch. rewrite decide_True by (by unfold connected; rewrite Hs).
           by apply on_auth_unknown. }
  repeat split; try done.
  - unfold receives. simpl. by rewrite decide_True.
  - intros c Hne. unfold receives. simpl. by rewrite decide_False.
Qed.

(** C10. On a socket that already carries a user, an ["auth"] event with
    an id no user record has emits ["auth-failed"] to that socket and
    changes nothing else: [socket.user] is still the user bound before
    and the presence object, its entry for the socket included, is the
    same. *)
Theorem failed_reauth_keeps_session h sid userId bound :
  sockets h !! sid = Some (Some bound) →
  (∀ u, u ∈ readJSON (users_file h) → User.id u ≠ userId) →
  ∃ h',
    dispatch (Auth sid userId) h = (Resolved (), h', [SocketEmit sid AuthFailed]) ∧
    receives h' sid [SocketEmit sid AuthFailed] = [AuthFailed] ∧
    (∀ c, c ≠ sid → receives h' c [SocketEmit sid AuthFailed] = []) ∧
    sockets h' !! sid = Some (Some bound) ∧
    obj_get sid (online h') = obj_get sid (online h) ∧
    h' = h.
Proof.
  intros Hs Hnone. apply find_user_None in Hnone. exists h.
  split. { unfold dispatch. rewrite decide_True by (by unfold connected; rewrite Hs).
           by apply on_auth_unknown. }
  repeat split; try done.
  - unfold receives. simpl. by rewrite decide_True.
  - intros c Hne. unfold receives. simpl. by rewrite decide_False.
Qed.

(** ** Sends that are not accepted *)

(** C4. On a socket that carries a user, a ["send-message"] whose text
    trims to the empty string resolves without any effect: the state,
    hence the persisted log, is unchanged and nothing is emitted. *)
Theorem blank_text_is_noop h sid text env user :
  sockets h !! sid = Some (Some user) →
  trim text = [] →
  dispatch (SendMessage sid text env) h = (Resolved (), h, []).
Proof.
  intros Hs Ht. unfold dispatch.
  rewrite decide_True by (by unfold connected; rewrite Hs).
  by rewrite on_send_message_eq, Hs, Ht.
Qed.

(** C5. On a live socket without a user, ["send-message"] and
    ["send-image"] resolve without any effect, whatever the payload, the
    clock and the disk: the state is unchanged (nothing is persisted)
    and nothing is emitted (no ["new-message"], no error event). *)
Theorem unauthenticated_send_dropped h sid payload env :
  sockets h !! sid = Some None →
  dispatch (SendMessage sid payload env) h = (Resolved (), h, []) ∧
  dispatch (SendImage sid payload env) h = (Resolved (), h, []).
Proof.
  intros Hs. unfold dispatch.
  rewrite !decide_True by (by unfold connected; rewrite Hs).
  by rewrite on_send_message_eq, on_send_image_eq, Hs.
Qed.

(** ** Accepted sends *)

Lemma dispatch_accepted h i sid user c env :
  sockets h !! sid = Some (Some user) →
  accepted_body i = Some (sid, c, env) →
  dispatch i h = persist_and_broadcast user c env h.
Proof.
  intros Hs Hacc.
  destruct i as [|? ?|sid' text env'|sid' url env'|]; try done; simpl in Hacc.
  - destruct (trim text) as [|a t] eqn:Ht; [done|]. injection Hacc as -> <- ->.
    unfold dispatch. rewrite decide_True by (by unfold connected; rewrite Hs).
    by rewrite on_send_message_eq, Hs, Ht.
  - destruct url as [|a t] eqn:Hu; [done|]. injection Hacc as -> <- ->.
    unfold dispatch. rewrite decide_True by (by unfold connected; rewrite Hs).
    by rewrite on_send_image_eq, Hs.
Qed.

Lemma push_bounded_snoc messages msg :
  push_bounded messages msg =
    most_recent (MAX_MESSAGES - 1) messages ++ [msg].
Proof.
  rewrite push_bounded_most_recent, !most_recent_drop, length_app.
  unfold MAX_MESSAGES. simpl length.
  rewrite drop_app_le by lia. do 2 f_equal. lia.
Qed.


Lemma slice_last_snoc {A} k (l : list A) x :
  0 < k → last (slice_last k (l ++ [x])) = Some x.
Proof.
  intros Hk. unfold slice_last. rewrite length_app. simpl.
  rewrite drop_app_le by lia. apply last_snoc.
Qed.

(** C6. After an accepted send whose write succeeds, the history query
    returns a log whose last element is the appended message itself,
    equal in every field, whatever the users file has become in the
    meantime; its sender fields are the ones [socket.user] had when the
    message was built; the replay sent on ["auth"] ends with it too. *)
Theorem appended_message_read_back h i sid user c env :
  sockets h !! sid = Some (Some user) →
  accepted_body i = Some (sid, c, env) →
  write_file env = WriteOk →
  ∃ h' msg,
    dispatch i h = (Resolved (), h', [IoEmit (NewMessage msg)]) ∧
    last (api_messages h') = Some msg ∧
    (∀ users', last (api_messages (set_files users' (messages_file h') h'))
               = Some msg) ∧
    last (slice_last 500 (api_messages h')) = Some msg ∧
    Message.userId msg = SafeUser.id user ∧
    Message.username msg = SafeUser.username user ∧
    Message.profile msg = SafeUser.profile user ∧
    Message.color msg = js_or (SafeUser.color user) (lit "#fff") ∧
    Message.content msg = c ∧
    Message.timestamp msg = now_ts env.
Proof.
  intros Hs Hacc Hw.
  eexists _, (make_msg user c env).
  split. { rewrite (dispatch_accepted _ _ _ _ _ _ Hs Hacc).
           by apply persist_ok. }
  unfold api_messages, set_files. cbn [messages_file readJSON].
  rewrite push_bounded_snoc.
  repeat split; try done.
  - apply last_snoc.
  - intros _. apply last_snoc.
  - apply slice_last_snoc. lia.
  - simpl. apply js_or_nil.
Qed.

(** C7 (amended). When the write of the message file fails, the send
    handler stops there: its promise rejects and nothing is emitted, in
    particular no ["new-message"]. When a file cannot be read, is empty
    or does not parse as JSON, [readJSON] yields the empty array and the
    handler goes on with it and resolves: an ["auth"] that finds the
    users file so answers ["auth-failed"], an ["auth"] that finds the
    message file so replays an empty history, and an accepted send that
    finds the message file so starts a new log with its message and
    announces it. *)
Theorem write_failure_aborts_send h i sid user c env residue :
  sockets h !! sid = Some (Some user) →
  accepted_body i = Some (sid, c, env) →
  write_file env = WriteFails residue →
  dispatch i h = (Rejected, set_files (users_file h) residue h, []) ∧
  new_messages (dispatch i h).2 = [] ∧
  readJSON (@Unreadable Message.t) = [] ∧
  readJSON (@EmptyText Message.t) = [] ∧
  readJSON (@Malformed Message.t) = [] ∧
  readJSON (@Unreadable User.t) = [] ∧
  readJSON (@EmptyText User.t) = [] ∧
  readJSON (@Malformed User.t) = [] ∧
  (∀ g s userId,
     connected g s → (∀ d, users_file g ≠ Json d) →
     dispatch (Auth s userId) g = (Resolved (), g, [SocketEmit s AuthFailed])) ∧
  (∀ g s userId u,
     connected g s →
     find_user userId (readJSON (users_file g)) = Some u →
     (∀ d, messages_file g ≠ Json d) →
     (dispatch (Auth s userId) g).1.1 = Resolved () ∧
     last (dispatch (Auth s userId) g).2 = Some (SocketEmit s (LoadMessages []))) ∧
  (∀ g j s u b e,
     sockets g !! s = Some (Some u) →
     accepted_body j = Some (s, b, e) →
     write_file e = WriteOk →
     (∀ d, messages_file g ≠ Json d) →
     dispatch j g =
       (Resolved (), set_files (users_file g) (Json [make_msg u b e]) g,
        [IoEmit (NewMessage (make_msg u b e))])).
Proof.
  intros Hs Hacc Hw.
  assert (Hd : dispatch i h = (Rejected, set_files (users_file h) residue h, [])).
  { rewrite (dispatch_accepted _ _ _ _ _ _ Hs Hacc). by apply persist_fails. }
  split; [done|]. split; [by rewrite Hd|].
  do 6 (split; [done|]).
  assert (Hbad : ∀ A (f : file A), (∀ d, f ≠ Json d) → readJSON f = []).
  { intros A [| | |d] Hf; try done. by destruct (Hf d). }
  split; [|split].
  - intros g s userId Hc Hf. unfold dispatch. rewrite decide_True by done.
    apply on_auth_unknown. by rewrite (Hbad _ _ Hf).
  - intros g s userId u Hc Hfind Hf. unfold dispatch.
    rewrite decide_True by done. rewrite (on_auth_known _ _ _ _ Hfind).
    by rewrite (Hbad _ _ Hf).
  - intros g j s u b e Hsock Hj He Hf.
    rewrite (dispatch_accepted _ _ _ _ _ _ Hsock Hj), (persist_ok _ _ _ _ He).
    by rewrite (Hbad _ _ Hf).
Qed.

(** ** Disconnecting *)

Lemma obj_delete_absent {V} k (o : list (SocketId * V)) :
  obj_get k o = None → obj_delete k o = o.
Proof.
  induction o as [|[k0 v0] o IH]; simpl; [done|].
  case_decide; [done|]. intros Hget. by rewrite IH.
Qed.

(** ** Runs stay reachable *)


(** ** Password digests never reach a client *)

Lemma safe_scrub u1 u2 : scrub u1 = scrub u2 → safe u1 = safe u2.
Proof. destruct u1, u2. unfold scrub, safe. simpl. by intros [= -> -> -> -> _]. Qed.

Lemma find_user_scrub userId d1 : ∀ d2,
  scrub <$> d1 = scrub <$> d2 →
  safe <$> find_user userId d1 = safe <$> find_user userId d2.
Proof.
  induction d1 as [|u1 d1 IH]; intros [|u2 d2]; try done.
  rewrite !fmap_cons. intros Heq.
  assert (scrub u1 = scrub u2) as Hu by congruence.
  assert (scrub <$> d1 = scrub <$> d2) as Hd by congruence.
  unfold find_user in *. simpl.
  assert (User.id u1 = User.id u2) as Hid
    by (by apply (f_equal User.id) in Hu).
  rewrite Hid. case_bool_decide.
  - simpl. f_equal. by apply safe_scrub.
  - by apply IH.
Qed.

Lemma find_user_agree userId f1 f2 :
  same_but_hashes f1 f2 →
  safe <$> find_user userId (readJSON f1) = safe <$> find_user userId (readJSON f2).
Proof. destruct f1, f2; try done. apply find_user_scrub. Qed.

Lemma dispatch_agree i h1 h2 :
  hubs_agree h1 h2 →
  (dispatch i h1).1.1 = (dispatch i h2).1.1 ∧
  (dispatch i h1).2 = (dispatch i h2).2 ∧
  hubs_agree (dispatch i h1).1.2 (dispatch i h2).1.2.
Proof.
  intros (Hu & Hm & Ho & Hs). unfold hubs_agree.
  assert (Hconn : ∀ s, connected h1 s ↔ connected h2 s)
    by (intros s; unfold connected; by rewrite Hs).
  destruct i as [s|s uid|s text e|s url e|s]; unfold dispatch.
  - destruct (decide (connected h1 s)) as [Hc|Hc].
    + by rewrite decide_True by by apply Hconn.
    + rewrite decide_False by by rewrite <- Hconn. simpl. by rewrite Hs.
  - destruct (decide (connected h1 s)) as [Hc|Hc].
    2: { by rewrite decide_False by by rewrite <- Hconn. }
    rewrite decide_True by by apply Hconn.
    pose proof (find_user_agree uid _ _ Hu) as Hfind.
    destruct (find_user uid (readJSON (users_file h1))) as [u1|] eqn:E1;
      destruct (find_user uid (readJSON (users_file h2))) as [u2|] eqn:E2;
      try done.
    + assert (safe u1 = safe u2) as Hsafe by (by apply (inj Some)).
      rewrite (on_auth_known _ _ _ _ E1), (on_auth_known _ _ _ _ E2). simpl.
      by rewrite Hsafe, Ho, Hm, Hs.
    + by rewrite (on_auth_unknown _ _ _ E1), (on_auth_unknown _ _ _ E2).
  - destruct (decide (connected h1 s)) as [Hc|Hc].
    2: { by rewrite decide_False by by rewrite <- Hconn. }
    rewrite decide_True by by apply Hconn.
    rewrite !on_send_message_eq, Hs. destruct (mjoin _); [|done].
    destruct (trim text); [done|].
    destruct (write_file e) as [|residue] eqn:Hw.
    + rewrite !(persist_ok _ _ _ _ Hw). simpl. by rewrite Hm.
    + by rewrite !(persist_fails _ _ _ _ _ Hw).
  - destruct (decide (connected h1 s)) as [Hc|Hc].
    2: { by rewrite decide_False by by rewrite <- Hconn. }
    rewrite decide_True by by apply Hconn.
    rewrite !on_send_image_eq, Hs. destruct (mjoin _); [|done].
    destruct url; [done|].
    destruct (write_file e) as [|residue] eqn:Hw.
    + rewrite !(persist_ok _ _ _ _ Hw). simpl. by rewrite Hm.
    + by rewrite !(persist_fails _ _ _ _ _ Hw).
  - destruct (decide (connected h1 s)) as [Hc|Hc].
    2: { by rewrite decide_False by by rewrite <- Hconn. }
    rewrite decide_True by by apply Hconn.
    unfold close_socket, mbind, Handler_bind, h_bind.
    rewrite !on_disconnect_eq. simpl. rewrite Ho, Hs.
    by destruct (obj_get s (online h2)).
Qed.

Lemma receives_agree h1 h2 sid out :
  sockets h1 = sockets h2 → receives h1 sid out = receives h2 sid out.
Proof.
  intros Hs. unfold receives.
  apply list_omap_ext, Forall_Forall2_diag, Forall_forall.
  intros [s ev|ev] _; [done|]. unfold connected. rewrite Hs.
  by repeat case_decide.
Qed.

(** C9. No record a client can receive has a password digest: presence
    entries and ["update-users"] payloads are [SafeUser.t] records,
    ["new-message"] and ["load-messages"] payloads are [Message.t]
    records built from [socket.user]. Hence two servers whose users
    files differ at most in [passwordHash] fields, and that agree on the
    rest of their state, react to any run of inputs with the same
    emissions, deliver the same events to every socket, and agree again
    afterwards. *)
Theorem password_digest_never_leaks policy h1 h2 inputs :
  hubs_agree h1 h2 →
  (run policy h1 inputs).2 = (run policy h2 inputs).2 ∧
  (∀ sid, delivered policy sid h1 inputs = delivered policy sid h2 inputs) ∧
  hubs_agree (run policy h1 inputs).1 (run policy h2 inputs).1.
Proof.
  revert h1 h2. induction inputs as [|i inputs IH]; intros h1 h2 Hagree;
    simpl; [done|].
  destruct (dispatch_agree i _ _ Hagree) as (Hres & Hout & Hnext).
  destruct (dispatch i h1) as [[r1 g1] out1].
  destruct (dispatch i h2) as [[r2 g2] out2]. simpl in *. subst out2 r2.
  pose proof (receives_agree g1 g2) as Hrecv.
  destruct (IH _ _ Hnext) as (Houts & Hdel & Hend).
  destruct (run policy g1 inputs) as [e1 o1].
  destruct (run policy g2 inputs) as [e2 o2].
  simpl in *. subst o2.
  assert (Hsock : sockets g1 = sockets g2) by apply Hnext.
  destruct r1, policy; simpl; (split; [done|]); (split; [|done]);
    intros sid; by rewrite (Hrecv sid out1 Hsock), ?Hdel.
Qed.

(** * The statements at work on the lobby *)


Lemma lobby_s1 : sockets lobby !! s1 = Some (Some (safe alice)).
Proof. vm_compute. reflexivity. Qed.

Lemma lobby_s2 : sockets lobby !! s2 = Some None.
Proof. vm_compute. reflexivity. Qed.

Lemma lobby_no_ghost :
  ∀ u, u ∈ readJSON (users_file lobby) → User.id u ≠ lit "ghost".
Proof. apply find_user_None. vm_compute. reflexivity. Qed.


Lemma auth_unknown_user_witness :
  sockets lobby !! s2 = Some None ∧
  (∀ u, u ∈ readJSON (users_file lobby) → User.id u ≠ lit "ghost") ∧
  dispatch (Auth s2 (lit "ghost")) lobby =
    (Resolved (), lobby, [SocketEmit s2 AuthFailed]).
Proof.
  split; [exact lobby_s2|]. split; [exact lobby_no_ghost|].
  destruct (auth_unknown_user lobby s2 (lit "ghost") lobby_s2 lobby_no_ghost)
    as (h' & Hd & _ & _ & -> & _).
  exact Hd.
Defined.

Lemma failed_reauth_keeps_session_witness :
  sockets lobby !! s1 = Some (Some (safe alice)) ∧
  (∀ u, u ∈ readJSON (users_file lobby) → User.id u ≠ lit "ghost") ∧
  ∃ h',
    dispatch (Auth s1 (lit "ghost")) lobby =
      (Resolved (), h', [SocketEmit s1 AuthFailed]) ∧
    sockets h' !! s1 = Some (Some (safe alice)).
Proof.
  split; [exact lobby_s1|]. split; [exact lobby_no_ghost|].
  destruct (failed_reauth_keeps_session lobby s1 (lit "ghost") (safe alice)
              lobby_s1 lobby_no_ghost) as (h' & Hd & _ & _ & Hs & _).
  exists h'. split; [exact Hd | exact Hs].
Defined.

Lemma blank_text_is_noop_witness :
  sockets lobby !! s1 = Some (Some (safe alice)) ∧
  trim (lit "   ") = [] ∧
  dispatch (SendMessage s1 (lit "   ") env_ok) lobby = (Resolved (), lobby, []).
Proof.
  split; [exact lobby_s1|]. split; [reflexivity|].
  exact (blank_text_is_noop lobby s1 (lit "   ") env_ok (safe alice)
           lobby_s1 eq_refl).
Defined.

Lemma unauthenticated_send_dropped_witness :
  sockets lobby !! s2 = Some None ∧
  dispatch (SendMessage s2 (lit "hello") env_ok) lobby = (Resolved (), lobby, []) ∧
  dispatch (SendImage s2 (lit "hello") env_ok) lobby = (Resolved (), lobby, []).
Proof.
  split; [exact lobby_s2|].
  exact (unauthenticated_send_dropped lobby s2 (lit "hello") env_ok lobby_s2).
Defined.

Lemma appended_message_read_back_witness :
  sockets lobby !! s1 = Some (Some (safe alice)) ∧
  accepted_body (SendMessage s1 (lit " hi ") env_ok)
    = Some (s1, Text (lit "hi"), env_ok) ∧
  write_file env_ok = WriteOk ∧
  ∃ h' msg,
    dispatch (SendMessage s1 (lit " hi ") env_ok) lobby
      = (Resolved (), h', [IoEmit (NewMessage msg)]) ∧
    last (api_messages h') = Some msg ∧
    Message.content msg = Text (lit "hi").
Proof.
  split; [exact lobby_s1|]. split; [reflexivity|]. split; [reflexivity|].
  destruct (appended_message_read_back lobby (SendMessage s1 (lit " hi ") env_ok)
              s1 (safe alice) (Text (lit "hi")) env_ok lobby_s1 eq_refl eq_refl)
    as (h' & msg & Hd & Hl & _ & _ & _ & _ & _ & _ & Hc & _).
  exists h', msg. split; [exact Hd|]. split; [exact Hl | exact Hc].
Defined.

Lemma write_failure_aborts_send_witness :
  sockets lobby !! s1 = Some (Some (safe alice)) ∧
  accepted_body (SendMessage s1 (lit " hi ") env_fail)
    = Some (s1, Text (lit "hi"), env_fail) ∧
  write_file env_fail = WriteFails Malformed ∧
  dispatch (SendMessage s1 (lit " hi ") env_fail) lobby
    = (Rejected, set_files (users_file lobby) Malformed lobby, []).
Proof.
  split; [exact lobby_s1|]. split; [reflexivity|]. split; [reflexivity|].
  exact (proj1 (write_failure_aborts_send lobby
                  (SendMessage s1 (lit " hi ") env_fail) s1 (safe alice)
                  (Text (lit "hi")) env_fail Malformed
                  lobby_s1 eq_refl eq_refl)).
Defined.

(** C7 as stated fails: alice's socket sends "hi" while the disk refuses
    the write; the handler rejects and no ["new-message"] is emitted. *)
Lemma write_failure_drops_broadcast :
  sockets lobby !! s1 = Some (Some (safe alice)) ∧
  trim (lit "hi") ≠ [] ∧
  write_file env_fail = WriteFails Malformed ∧
  dispatch (SendMessage s1 (lit "hi") env_fail) lobby
    = (Rejected, set_files (users_file lobby) Malformed lobby, []) ∧
  new_messages (dispatch (SendMessage s1 (lit "hi") env_fail) lobby).2 = [] ∧
  ¬ (∀ h sid text env user residue,
       sockets h !! sid = Some (Some user) →
       trim text ≠ [] →
       write_file env = WriteFails residue →
       ∃ m, IoEmit (NewMessage m) ∈ (dispatch (SendMessage sid text env) h).2).
Proof.
  assert (Hd : dispatch (SendMessage s1 (lit "hi") env_fail) lobby
               = (Rejected, set_files (users_file lobby) Malformed lobby, [])).
  { rewrite (dispatch_accepted lobby (SendMessage s1 (lit "hi") env_fail) s1
               (safe alice) (Text (lit "hi")) env_fail lobby_s1 eq_refl).
    by apply persist_fails. }
  split; [exact lobby_s1|]. split; [done|]. split; [done|].
  split; [exact Hd|]. split; [by rewrite Hd|].
  intros Hclaim.
  destruct (Hclaim lobby s1 (lit "hi") env_fail (safe alice) Malformed
              lobby_s1 ltac:(done) eq_refl) as [m Hm].
  rewrite Hd in Hm. simpl in Hm. by apply elem_of_nil in Hm.
Qed.

Lemma password_digest_never_leaks_witness :
  hubs_agree lobby rehashed_lobby ∧
  (run ExitProcess lobby evening).2 = (run ExitProcess rehashed_lobby evening).2 ∧
  ∀ sid, delivered ExitProcess sid lobby evening
         = delivered ExitProcess sid rehashed_lobby evening.
Proof.
  assert (H1 : hubs_agree lobby rehashed_lobby) by (by repeat split).
  split; [exact H1|].
  destruct (password_digest_never_leaks ExitProcess lobby rehashed_lobby
              evening H1) as (Ho & Hd & _).
  split; [exact Ho | exact Hd].
Defined.

(** * Further properties of the socket handlers *)

(** ** What [trim] leaves *)

Lemma trimStart_split (s : jsstring) :
  ∃ p, s = p ++ trimStart s ∧ Forall (λ c, is_white_space c = true) p.
Proof.
  induction s as [|c s (p & Hs & Hp)]; simpl.
  - by exists [].
  - destruct (is_white_space c) eqn:Hc.
    + exists (c :: p). split; [by rewrite Hs at 1 | by constructor].
    + by exists [].
Qed.

Lemma trimStart_id (s : jsstring) :
  (∀ c, head s = Some c → is_white_space c = false) → trimStart s = s.
Proof.
  destruct s as [|c s]; simpl; [done|]. intros H. by rewrite (H c eq_refl).
Qed.

Lemma trimEnd_split (s : jsstring) :
  ∃ q, s = trimEnd s ++ q ∧ Forall (λ c, is_white_space c = true) q.
Proof.
  destruct (trimStart_split (reverse s)) as (p & Hs & Hp).
  exists (reverse p). split; [|by apply Forall_reverse].
  unfold trimEnd. rewrite <- reverse_app, <- Hs. by rewrite reverse_involutive.
Qed.

Lemma trimEnd_last (s : jsstring) c :
  last (trimEnd s) = Some c → is_white_space c = false.
Proof.
  unfold trimEnd. rewrite last_reverse.
  destruct (trimStart (reverse s)) as [|d t] eqn:E; [done|].
  intros [= <-]. by apply trimStart_head in E.
Qed.

Lemma trimEnd_id (s : jsstring) :
  (∀ c, last s = Some c → is_white_space c = false) → trimEnd s = s.
Proof.
  intros H. unfold trimEnd. rewrite trimStart_id, reverse_involutive; [done|].
  intros c. rewrite head_reverse. apply H.
Qed.

Lemma trimEnd_head (s : jsstring) c :
  head s = Some c → is_white_space c = false → head (trimEnd s) = Some c.
Proof.
  intros Hh Hc. destruct (trimEnd_split s) as (q & Hs & Hq).
  destruct (trimEnd s) as [|d t]; simpl in *.
  - subst q. destruct s as [|e s]; [done|]. injection Hh as ->.
    apply Forall_cons in Hq as [Hq _]. congruence.
  - rewrite Hs in Hh. by simpl in Hh.
Qed.

Lemma trim_ends (s : jsstring) :
  trim s ≠ [] →
  (∃ c, head (trim s) = Some c ∧ is_white_space c = false) ∧
  (∃ c, last (trim s) = Some c ∧ is_white_space c = false).
Proof.
  intros Hne. unfold trim in *. split.
  - destruct (trimStart s) as [|c t] eqn:E; [done|].
    pose proof (trimStart_head _ _ _ E) as Hc.
    exists c. split; [|done]. by apply trimEnd_head.
  - destruct (last (trimEnd (trimStart s))) as [c|] eqn:E.
    + exists c. split; [done|]. by apply trimEnd_last in E.
    + by apply last_None in E.
Qed.

Lemma trim_idempotent (s : jsstring) : trim (trim s) = trim s.
Proof.
  destruct (decide (trim s = [])) as [->|Hne]; [done|].
  destruct (trim_ends s Hne) as [(c & Hh & Hc) (d & Hl & Hd)].
  unfold trim at 1. rewrite trimStart_id, trimEnd_id; [done| |].
  - intros e He. congruence.
  - intros e He. congruence.
Qed.

Lemma trim_split (s : jsstring) :
  ∃ p q, s = p ++ trim s ++ q ∧
         Forall (λ c, is_white_space c = true) p ∧
         Forall (λ c, is_white_space c = true) q.
Proof.
  destruct (trimStart_split s) as (p & Hs & Hp).
  destruct (trimEnd_split (trimStart s)) as (q & Ht & Hq).
  exists p, q. unfold trim. by rewrite <- Ht.
Qed.

Lemma accepted_text text sid env :
  trim text ≠ [] →
  accepted_body (SendMessage sid text env) = Some (sid, Text (trim text), env).
Proof. simpl. by destruct (trim text). Qed.

Lemma accepted_image url sid env :
  url ≠ [] →
  accepted_body (SendImage sid url env) = Some (sid, Image url, env).
Proof. simpl. by destruct url. Qed.

(** X1. The text of a persisted message is the sent text without the
    white space around it: the sent text is white space, then the stored
    text, then white space; the stored text begins and ends with a code
    unit that is not white space, and trimming it again changes nothing. *)
Theorem accepted_text_is_trimmed h sid text env user :
  sockets h !! sid = Some (Some user) →
  trim text ≠ [] →
  write_file env = WriteOk →
  ∃ h' msg stored before after,
    dispatch (SendMessage sid text env) h
      = (Resolved (), h', [IoEmit (NewMessage msg)]) ∧
    last (api_messages h') = Some msg ∧
    Message.content msg = Text stored ∧
    text = before ++ stored ++ after ∧
    Forall (λ c, is_white_space c = true) before ∧
    Forall (λ c, is_white_space c = true) after ∧
    (∃ c, head stored = Some c ∧ is_white_space c = false) ∧
    (∃ c, last stored = Some c ∧ is_white_space c = false) ∧
    trim stored = stored.
Proof.
  intros Hs Hne Hw.
  destruct (trim_split text) as (p & q & Hsplit & Hp & Hq).
  destruct (trim_ends text Hne) as [Hhead Hlast].
  exists (mkHub (users_file h)
            (Json (push_bounded (readJSON (messages_file h))
                     (make_msg user (Text (trim text)) env)))
            (online h) (sockets h)),
    (make_msg user (Text (trim text)) env), (trim text), p, q.
  split.
  { rewrite (dispatch_accepted _ _ _ _ _ _ Hs (accepted_text _ _ _ Hne)).
    by apply persist_ok. }
  split.
  { unfold api_messages. simpl. rewrite push_bounded_snoc. apply last_snoc. }
  repeat split; try done. apply trim_idempotent.
Qed.

Lemma blank_text_is_noop_aux h sid text env user :
  sockets h !! sid = Some (Some user) →
  trim text = [] →
  dispatch (SendMessage sid text env) h = (Resolved (), h, []).
Proof.
  intros Hs Ht. unfold dispatch.
  rewrite decide_True by (by unfold connected; rewrite Hs).
  by rewrite on_send_message_eq, Hs, Ht.
Qed.

(** X2. ["send-image"] does not trim: on a socket that carries a user, a
    payload made only of white space is dropped when sent as text but is
    persisted and announced unchanged when sent as an image reference. *)
Theorem blank_image_url_is_kept h sid payload env user :
  sockets h !! sid = Some (Some user) →
  payload ≠ [] →
  Forall (λ c, is_white_space c = true) payload →
  write_file env = WriteOk →
  dispatch (SendMessage sid payload env) h = (Resolved (), h, []) ∧
  ∃ h' msg,
    dispatch (SendImage sid payload env) h
      = (Resolved (), h', [IoEmit (NewMessage msg)]) ∧
    Message.content msg = Image payload ∧
    last (api_messages h') = Some msg.
Proof.
  intros Hs Hne Hblank Hw. split.
  { apply (blank_text_is_noop_aux h sid payload env user Hs).
    by apply trim_nil_iff. }
  eexists _, (make_msg user (Image payload) env). split.
  { rewrite (dispatch_accepted _ _ _ _ _ _ Hs (accepted_image _ _ _ Hne)).
    by apply persist_ok. }
  split; [done|].
  unfold api_messages. simpl. rewrite push_bounded_snoc. apply last_snoc.
Qed.

(** X3. The message of an accepted send whose write succeeds is received
    by every live socket, the sender included, as its only event; a
    socket that is not live receives nothing. *)
Theorem new_message_reaches_every_live_socket h i sid user c env :
  sockets h !! sid = Some (Some user) →
  accepted_body i = Some (sid, c, env) →
  write_file env = WriteOk →
  let h' := (dispatch i h).1.2 in
  let out := (dispatch i h).2 in
  receives h' sid out = [NewMessage (make_msg user c env)] ∧
  (∀ s, connected h s → receives h' s out = [NewMessage (make_msg user c env)]) ∧
  (∀ s, ¬ connected h s → receives h' s out = []).
Proof.
  intros Hs Hacc Hw. cbn zeta.
  rewrite (dispatch_accepted _ _ _ _ _ _ Hs Hacc), (persist_ok _ _ _ _ Hw).
  assert (Hall : ∀ s, connected h s →
    receives (mkHub (users_file h)
                (Json (push_bounded (readJSON (messages_file h))
                         (make_msg user c env))) (online h) (sockets h))
             s [IoEmit (NewMessage (make_msg user c env))]
    = [NewMessage (make_msg user c env)]).
  { intros s Hc. unfold receives. simpl. by rewrite decide_True. }
  split; [|split; [done|]].
  - apply Hall. unfold connected. by rewrite Hs.
  - intros s Hc. unfold receives. simpl. by rewrite decide_False.
Qed.

(** X4. When the message file cannot be read or parsed, an accepted send
    whose write succeeds replaces it by a log that holds the new message
    alone: whatever the file held is gone. *)
Theorem send_on_unreadable_log_restarts_history h i sid user c env :
  sockets h !! sid = Some (Some user) →
  accepted_body i = Some (sid, c, env) →
  write_file env = WriteOk →
  (∀ data, messages_file h ≠ Json data) →
  messages_file (dispatch i h).1.2 = Json [make_msg user c env].
Proof.
  intros Hs Hacc Hw Hbad.
  rewrite (dispatch_accepted _ _ _ _ _ _ Hs Hacc), (persist_ok _ _ _ _ Hw).
  simpl. destruct (messages_file h) as [| | |data]; try done.
  by destruct (Hbad data).
Qed.


(** ** Presence as the auth handler builds it *)







(** X9. No socket event writes the users file, and only an accepted send
    from a socket that carries a user changes the message file; a send
    changes neither the presence object nor any [socket.user]. *)
Theorem socket_events_file_frame i h :
  let h' := (dispatch i h).1.2 in
  users_file h' = users_file h ∧
  (messages_file h' ≠ messages_file h →
     ∃ sid c env user,
       accepted_body i = Some (sid, c, env) ∧
       sockets h !! sid = Some (Some user)) ∧
  (is_Some (accepted_body i) → online h' = online h ∧ sockets h' = sockets h).
Proof.
  cbn zeta.
  destruct i as [s|s uid|s text e|s url e|s].
  - unfold dispatch. case_decide; simpl; repeat split;
      try done; try (by intros [? ?]).
  - unfold dispatch. case_decide; simpl.
    2: { repeat split; try done; try (by intros [? ?]). }
    destruct (find_user uid (readJSON (users_file h))) as [u|] eqn:E.
    + rewrite (on_auth_known _ _ _ _ E). simpl.
      repeat split; try done; try (by intros [? ?]).
    + rewrite (on_auth_unknown _ _ _ E). simpl.
      repeat split; try done; try (by intros [? ?]).
  - destruct (send_frame (SendMessage s text e) h I) as (Ho & Hs & Hu).
    split; [done|]. split; [|done].
    intros Hchg. unfold dispatch in Hchg. case_decide; [|done].
    rewrite on_send_message_eq in Hchg.
    destruct (sockets h !! s) as [[user|]|] eqn:Hsock; simpl in Hchg; try done.
    destruct (trim text) as [|a t] eqn:Ht; [done|].
    exists s, (Text (a :: t)), e, user. simpl. by rewrite Ht.
  - destruct (send_frame (SendImage s url e) h I) as (Ho & Hs & Hu).
    split; [done|]. split; [|done].
    intros Hchg. unfold dispatch in Hchg. case_decide; [|done].
    rewrite on_send_image_eq in Hchg.
    destruct (sockets h !! s) as [[user|]|] eqn:Hsock; simpl in Hchg; try done.
    destruct url as [|a t] eqn:Ht; [done|].
    by exists s, (Image (a :: t)), e, user.
  - destruct (decide (connected h s)) as [Hc|Hc].
    + rewrite dispatch_disconnect, on_disconnect_eq by done. simpl.
      destruct (obj_get s (online h)); simpl; repeat split;
        try done; try (by intros [? ?]).
    + unfold dispatch. rewrite decide_False by done. simpl.
      repeat split; try done; try (by intros [? ?]).
Qed.

(** * Ids and colours *)

Lemma digits36_radix fuel : ∀ n acc,
  digits36 fuel n acc = digits_radix 36 fuel n acc.
Proof.
  induction fuel as [|fuel IH]; intros n acc; simpl; [done|].
  destruct (n / 36 =? 0)%N; [done | apply IH].
Qed.

Lemma toString36_radix n : toString36 n = toString_radix 36 n.
Proof. apply digits36_radix. Qed.

Lemma digit_value_digit36 (d : N) : (d < 36)%N → digit_value (digit36 d) = d.
Proof.
  intros Hd. unfold digit_value, digit36.
  destruct (N.ltb_spec d 10).
  - destruct (N.ltb_spec (48 + d) 58); lia.
  - destruct (N.ltb_spec (87 + d) 58); lia.
Qed.

Lemma digit36_is_digit36 (d : N) : (d < 36)%N → is_digit36 (digit36 d).
Proof.
  intros Hd. unfold is_digit36, digit36. destruct (N.ltb_spec d 10); lia.
Qed.

Lemma digit36_is_hex (d : N) : (d < 16)%N → is_hex_digit (digit36 d).
Proof.
  intros Hd. unfold is_hex_digit, digit36. destruct (N.ltb_spec d 10); lia.
Qed.

Lemma parse_digits_radix radix fuel : ∀ n acc,
  (2 ≤ radix ≤ 36)%N →
  (n < radix ^ N.of_nat fuel)%N →
  parse_radix radix 0 (digits_radix radix fuel n acc) = parse_radix radix n acc.
Proof.
  induction fuel as [|fuel IH]; intros n acc Hr Hn.
  - simpl in *. by replace n with 0%N by lia.
  - rewrite Nat2N.inj_succ, N.pow_succ_r' in Hn. simpl.
    assert (Hmod : (n mod radix < radix)%N) by (apply N.mod_lt; lia).
    destruct (N.eqb_spec (n / radix) 0) as [Hq|Hq].
    + apply N.div_small_iff in Hq; [|lia].
      unfold parse_radix. simpl.
      rewrite digit_value_digit36 by lia.
      rewrite N.mod_small by done. done.
    + rewrite IH; [|done|apply N.Div0.div_lt_upper_bound; lia].
      unfold parse_radix. simpl.
      rewrite digit_value_digit36 by lia.
      f_equal. rewrite (N.div_mod' n radix) at 3. lia.
Qed.

Lemma enough_fuel radix n :
  (2 ≤ radix)%N → (n < radix ^ N.of_nat (S (N.to_nat (N.log2 n))))%N.
Proof.
  intros Hr. rewrite Nat2N.inj_succ, N2Nat.id.
  apply N.lt_le_trans with (2 ^ N.succ (N.log2 n))%N.
  - destruct (N.eq_dec n 0%N) as [->|Hn]; [done|].
    apply N.log2_spec. lia.
  - apply N.pow_le_mono_l. lia.
Qed.

Lemma toString_radix_parse radix n :
  (2 ≤ radix ≤ 36)%N → parse_radix radix 0 (toString_radix radix n) = n.
Proof.
  intros Hr. unfold toString_radix.
  rewrite parse_digits_radix; [done | done | apply enough_fuel; lia].
Qed.

Lemma digits_radix_Forall (P : N → Prop) radix fuel : ∀ n acc,
  (0 < radix)%N →
  (∀ d, (d < radix)%N → P (digit36 d)) →
  Forall P acc → Forall P (digits_radix radix fuel n acc).
Proof.
  induction fuel as [|fuel IH]; intros n acc Hr HP Hacc; simpl; [done|].
  assert (Forall P (digit36 (n mod radix) :: acc)).
  { constructor; [|done]. apply HP, N.mod_lt. lia. }
  destruct (n / radix =? 0)%N; [done | by apply IH].
Qed.

Lemma digits_radix_length radix fuel : ∀ n acc k,
  (2 ≤ radix)%N → 1 ≤ k → (n < radix ^ N.of_nat k)%N →
  length (digits_radix radix fuel n acc) ≤ k + length acc.
Proof.
  induction fuel as [|fuel IH]; intros n acc k Hr Hk Hn; simpl; [lia|].
  destruct (N.eqb_spec (n / radix) 0) as [Hq|Hq]; simpl; [lia|].
  destruct k as [|[|k]]; [lia| |].
  - exfalso. apply Hq. apply N.div_small. simpl in Hn. lia.
  - rewrite (IH _ _ (S k)); [simpl; lia | done | lia |].
    rewrite Nat2N.inj_succ, N.pow_succ_r' in Hn.
    apply N.Div0.div_lt_upper_bound; lia.
Qed.

Lemma mjoin_replicate_singleton {A} k (x : A) :
  mjoin (replicate k [x]) = replicate k x.
Proof. induction k as [|k IH]; simpl; [done|]. by rewrite IH. Qed.

Lemma padStart_zero (s : jsstring) :
  length s ≤ 6 →
  padStart s 6 (lit "0") = replicate (6 - length s) 48%N ++ s.
Proof.
  intros Hlen. unfold padStart. case_decide.
  - by replace (6 - length s) with 0 by lia.
  - change (lit "0") with [48%N]. cbv beta iota. unfold jsstring in *.
    rewrite mjoin_replicate_singleton.
    rewrite take_ge; [done|]. by rewrite length_replicate.
Qed.

Lemma randomColor_format_aux (n : N) :
  (n < 16777215)%N →
  ∃ digits, randomColor n = 35%N :: digits ∧ length digits = 6.
Proof.
  intros Hn. unfold randomColor.
  assert (Hlen : length (toString16 n) ≤ 6).
  { pose proof (digits_radix_length 16 (S (N.to_nat (N.log2 n))) n [] 6) as H.
    simpl length in H. unfold toString16, toString_radix.
    rewrite H; [lia | lia | lia |]. change (16 ^ N.of_nat 6)%N with 16777216%N.
    lia. }
  rewrite (padStart_zero _ Hlen).
  exists (replicate (6 - length (toString16 n)) 48%N ++ toString16 n).
  split; [done|]. rewrite length_app, length_replicate. lia.
Qed.

(** X10. For every value [Math.floor(Math.random()*16777215)] can take,
    [randomColor] returns ["#"] followed by exactly six lower-case
    hexadecimal digits, hence a non-empty string; and it never returns
    ["#ffffff"]. *)
Theorem randomColor_format (n : N) :
  (n < 16777215)%N →
  ∃ digits,
    randomColor n = 35%N :: digits ∧
    length digits = 6 ∧
    Forall is_hex_digit digits ∧
    randomColor n ≠ [] ∧
    randomColor n ≠ lit "#ffffff".
Proof.
  intros Hn. unfold randomColor.
  assert (Hlen : length (toString16 n) ≤ 6).
  { pose proof (digits_radix_length 16 (S (N.to_nat (N.log2 n))) n [] 6) as H.
    simpl length in H. unfold toString16, toString_radix.
    rewrite H; [lia | lia | lia |]. change (16 ^ N.of_nat 6)%N with 16777216%N.
    lia. }
  assert (Hhex : Forall is_hex_digit (toString16 n)).
  { apply digits_radix_Forall; [lia | apply digit36_is_hex | constructor]. }
  rewrite (padStart_zero _ Hlen).
  exists (replicate (6 - length (toString16 n)) 48%N ++ toString16 n).
  split; [done|]. split.
  { rewrite length_app, length_replicate. lia. }
  split.
  { apply Forall_app. split; [|done]. apply Forall_replicate.
    unfold is_hex_digit. lia. }
  split; [done|].
  change (lit "#" ++ ?x) with (35%N :: x).
  change (lit "#ffffff") with (35%N :: lit "ffffff").
  intros [= Heq].
  destruct (decide (length (toString16 n) = 6)) as [H6|H6].
  - rewrite H6 in Heq. simpl in Heq.
    pose proof (toString_radix_parse 16 n ltac:(lia)) as Hparse.
    fold (toString16 n) in Hparse. rewrite Heq in Hparse.
    vm_compute in Hparse. lia.
  - destruct (6 - length (toString16 n)) as [|k] eqn:Hk; [lia|].
    simpl in Heq. discriminate Heq.
Qed.

Lemma split_at_dash (l1 l2 r1 r2 : jsstring) :
  45%N ∉ l1 → 45%N ∉ l2 →
  l1 ++ 45%N :: r1 = l2 ++ 45%N :: r2 → l1 = l2 ∧ r1 = r2.
Proof.
  revert l2. induction l1 as [|a l1 IH]; intros [|b l2] H1 H2 Heq;
    simpl in Heq.
  - by injection Heq.
  - injection Heq as <- _. by apply not_elem_of_cons in H2 as [? _].
  - injection Heq as -> _. by apply not_elem_of_cons in H1 as [? _].
  - injection Heq as -> Heq.
    apply not_elem_of_cons in H1 as [_ H1].
    apply not_elem_of_cons in H2 as [_ H2].
    destruct (IH l2 H1 H2 Heq) as [-> ->]. done.
Qed.

Lemma toString36_no_dash n : 45%N ∉ toString36 n.
Proof.
  assert (H : Forall is_digit36 (toString36 n)).
  { rewrite toString36_radix.
    apply digits_radix_Forall; [lia | apply digit36_is_digit36 | constructor]. }
  intros Hin. rewrite Forall_forall in H. apply H in Hin.
  unfold is_digit36 in Hin. lia.
Qed.

Lemma id_determines_parts a b (r1 r2 : jsstring) :
  toString36 a ++ lit "-" ++ r1 = toString36 b ++ lit "-" ++ r2 →
  a = b ∧ r1 = r2.
Proof.
  change (lit "-" ++ ?x) with (45%N :: x). intros Heq.
  apply split_at_dash in Heq as [Ht Hr]; try apply toString36_no_dash.
  split; [|done].
  apply (f_equal (parse_radix 36 0)) in Ht.
  by rewrite !toString36_radix, !toString_radix_parse in Ht by lia.
Qed.

(** X11. An id built as [Date.now().toString(36) + "-" + random] tells
    both parts: two messages, or two registered users, have the same id
    only if they were built at the same clock reading with the same
    random part. *)
Theorem id_determines_clock_and_random :
  (∀ u1 u2 c1 c2 e1 e2,
     Message.id (make_msg u1 c1 e1) = Message.id (make_msg u2 c2 e2) →
     now_id e1 = now_id e2 ∧ random36 e1 = random36 e2) ∧
  (∀ digest n1 n2 p1 p2 f1 f2 e1 e2,
     User.id (new_user digest n1 p1 f1 e1)
       = User.id (new_user digest n2 p2 f2 e2) →
     reg_now e1 = reg_now e2 ∧ reg_random e1 = reg_random e2).
Proof.
  split.
  - intros u1 u2 c1 c2 e1 e2. apply id_determines_parts.
  - intros digest n1 n2 p1 p2 f1 f2 e1 e2. apply id_determines_parts.
Qed.

(** * The HTTP routes *)

Section route_facts.
Variable toLowerCase : jsstring → jsstring.
Variable sha256hex : jsstring → jsstring.

Lemma by_name_Some name users u :
  find_by_name toLowerCase name users = Some u →
  u ∈ users ∧ toLowerCase (User.username u) = toLowerCase name.
Proof.
  unfold find_by_name. intros H. apply find_some in H as [Hin Hn].
  split; [by apply list_elem_of_In | by apply bool_decide_eq_true in Hn].
Qed.

Lemma by_name_None name users :
  find_by_name toLowerCase name users = None ↔
  ∀ u, u ∈ users → toLowerCase (User.username u) ≠ toLowerCase name.
Proof.
  split.
  - intros H u Hin Hn. apply list_elem_of_In in Hin.
    apply (find_none _ _ H) in Hin. by apply bool_decide_eq_false in Hin.
  - intros H. destruct (find_by_name toLowerCase name users) as [u|] eqn:E; [|done].
    apply by_name_Some in E as [Hin Hn]. by apply H in Hin.
Qed.



Lemma register_required username password file env h :
  trim (js_or_undefined username []) = [] ∨ js_or_undefined password [] = [] →
  api_register toLowerCase sha256hex username password file env h = (Resolved required_response, h, []).
Proof.
  unfold api_register. intros [-> | ->]; [done|].
  by destruct (trim _).
Qed.

Lemma register_taken username password file env h u :
  trim (js_or_undefined username []) ≠ [] → js_or_undefined password [] ≠ [] →
  find_by_name toLowerCase (trim (js_or_undefined username [])) (readJSON (users_file h)) = Some u →
  api_register toLowerCase sha256hex username password file env h = (Resolved taken_response, h, []).
Proof.
  unfold api_register. intros Hn Hp Hf.
  destruct (trim _) as [|a n]; [done|].
  destruct (js_or_undefined password []) as [|b p]; [done|].
  unfold_handler. by rewrite Hf.
Qed.

Lemma register_new username password file env h :
  trim (js_or_undefined username []) ≠ [] → js_or_undefined password [] ≠ [] →
  find_by_name toLowerCase (trim (js_or_undefined username [])) (readJSON (users_file h)) = None →
  api_register toLowerCase sha256hex username password file env h =
    let user := new_user sha256hex (trim (js_or_undefined username []))
                  (js_or_undefined password []) file env in
    match reg_write env with
    | UsersWriteOk =>
        (Resolved (ok (UserBody (safe user))),
         mkHub (Json (readJSON (users_file h) ++ [user])) (messages_file h)
               (online h) (sockets h), [])
    | UsersWriteFails residue =>
        (Rejected, mkHub residue (messages_file h) (online h) (sockets h), [])
    end.
Proof.
  unfold api_register. intros Hn Hp Hf.
  destruct (trim _) as [|a n]; [done|].
  destruct (js_or_undefined password []) as [|b p]; [done|].
  unfold writeJSON_users, readJSON_users, mbind, mret, Handler_bind,
    Handler_ret, h_bind, h_ret, push. rewrite Hf. cbn zeta.
  by destruct (reg_write env).
Qed.

(** The three ways a registration ends. *)
Lemma register_cases username password file env h :
  let name := trim (js_or_undefined username []) in
  let pw := js_or_undefined password [] in
  ((name = [] ∨ pw = []) ∧
   api_register toLowerCase sha256hex username password file env h = (Resolved required_response, h, [])) ∨
  (name ≠ [] ∧ pw ≠ [] ∧
   (∃ u, find_by_name toLowerCase name (readJSON (users_file h)) = Some u) ∧
   api_register toLowerCase sha256hex username password file env h = (Resolved taken_response, h, [])) ∨
  (name ≠ [] ∧ pw ≠ [] ∧
   find_by_name toLowerCase name (readJSON (users_file h)) = None ∧
   api_register toLowerCase sha256hex username password file env h =
     match reg_write env with
     | UsersWriteOk =>
         (Resolved (ok (UserBody (safe (new_user sha256hex name pw file env)))),
          mkHub (Json (readJSON (users_file h) ++ [new_user sha256hex name pw file env]))
                (messages_file h) (online h) (sockets h), [])
     | UsersWriteFails residue =>
         (Rejected, mkHub residue (messages_file h) (online h) (sockets h), [])
     end).
Proof.
  cbn zeta.
  destruct (decide (trim (js_or_undefined username []) = [])) as [Hn|Hn].
  { left. split; [by left|]. apply register_required. by left. }
  destruct (decide (js_or_undefined password [] = [])) as [Hp|Hp].
  { left. split; [by right|]. apply register_required. by right. }
  destruct (find_by_name toLowerCase (trim (js_or_undefined username []))
              (readJSON (users_file h))) as [u|] eqn:Hf.
  - right. left. repeat split; try done; [by exists u|].
    by apply (register_taken _ _ _ _ _ u).
  - right. right. repeat split; try done. by apply register_new.
Qed.

(** X12. Registration answers 400 "username & password required" and
    changes nothing exactly when the username is absent or only white
    space, or the password is absent or empty; the password is not
    trimmed, so one made of white space passes this check. *)
Theorem register_requires_name_and_password username password file env h :
  (api_register toLowerCase sha256hex username password file env h = (Resolved required_response, h, []) ↔
   trim (js_or_undefined username []) = [] ∨ js_or_undefined password [] = []) ∧
  (js_or_undefined password [] = [] ↔ password = None ∨ password = Some []).
Proof.
  split; [split|].
  - intros Heq.
    destruct (register_cases username password file env h)
      as [[Hb _]|[(_ & _ & _ & Ht)|(Hn & Hp & _ & Hnew)]]; [done| |].
    + rewrite Ht in Heq. discriminate Heq.
    + rewrite Hnew in Heq. destruct (reg_write env); discriminate Heq.
  - apply register_required.
  - destruct password as [[|c p]|]; simpl; naive_solver.
Qed.

(** X13. When some record of the users file has the username that is
    asked for, letter case ignored, registration answers 400 "username
    already taken" and changes nothing. *)
Theorem register_rejects_taken_name username password file env h u :
  trim (js_or_undefined username []) ≠ [] →
  js_or_undefined password [] ≠ [] →
  u ∈ readJSON (users_file h) →
  toLowerCase (User.username u)
    = toLowerCase (trim (js_or_undefined username [])) →
  api_register toLowerCase sha256hex username password file env h = (Resolved taken_response, h, []).
Proof.
  intros Hn Hp Hin Hlow.
  destruct (find_by_name toLowerCase (trim (js_or_undefined username []))
              (readJSON (users_file h))) as [v|] eqn:Hf.
  - by apply (register_taken _ _ _ _ _ v).
  - rewrite by_name_None in Hf. by apply Hf in Hin.
Qed.


(** X15. If the usernames of the users file are pairwise different when
    case is ignored, they still are after any registration that
    answers. *)
Theorem register_keeps_names_unique username password file env h resp :
  names_unique toLowerCase (readJSON (users_file h)) →
  (api_register toLowerCase sha256hex username password file env h).1.1 = Resolved resp →
  names_unique toLowerCase (readJSON (users_file (api_register toLowerCase sha256hex username password file env h).1.2)).
Proof.
  intros Huniq Hres.
  destruct (register_cases username password file env h)
    as [[_ Heq]|[(_ & _ & _ & Heq)|(Hn & Hp & Hfree & Heq)]];
    rewrite Heq in *; try done.
  destruct (reg_write env); [|done]. simpl.
  unfold names_unique in *. rewrite fmap_app. simpl.
  apply NoDup_app. split; [done|]. split; [|apply NoDup_singleton].
  intros x Hx. rewrite list_elem_of_singleton. intros ->.
  apply list_elem_of_fmap in Hx as (u & Hlow & Hin).
  rewrite by_name_None in Hfree. apply Hfree in Hin. by simpl in Hlow.
Qed.


(** X17. Logging in never changes the state and never emits. It answers
    200 only with the safe projection of a stored record whose username
    is the given one, case ignored, and whose digest is that of the
    given password. With a non-empty username and password every other
    answer is the same 400 "invalid credentials", whether the name is
    unknown or the password wrong. *)
Theorem login_sound_and_uniform username password h :
  ∃ resp,
    api_login toLowerCase sha256hex username password h = (Resolved resp, h, []) ∧
    (status resp = 200%N →
       ∃ name pw u,
         username = Some name ∧ password = Some pw ∧
         u ∈ readJSON (users_file h) ∧
         toLowerCase (User.username u) = toLowerCase name ∧
         User.passwordHash u = sha256hex pw ∧
         resp = ok (UserBody (safe u))) ∧
    (status resp ≠ 200%N → resp = required_response ∨ resp = invalid_response) ∧
    (js_or_undefined username [] ≠ [] → js_or_undefined password [] ≠ [] →
     status resp ≠ 200%N → resp = invalid_response).
Proof.
  unfold api_login.
  destruct username as [[|a n]|]; try (by exists required_response; repeat split;
    try done; try (by left)).
  destruct password as [[|b p]|]; try (by exists required_response; repeat split;
    try done; try (by left)).
  unfold readJSON_users, mbind, mret, Handler_bind, Handler_ret, h_bind, h_ret.
  destruct (find_by_name toLowerCase (a :: n) (readJSON (users_file h))) as [u|] eqn:Hf.
  - case_bool_decide as Hh.
    + exists invalid_response. repeat split; try done. by right.
    + exists (ok (UserBody (safe u))). unfold hashPassword in Hh.
      apply by_name_Some in Hf as [Hin Hlow].
      repeat split; try done. intros _. by exists (a :: n), (b :: p), u.
  - exists invalid_response. repeat split; try done. by right.
Qed.


(** X19. When the users file cannot be read or parsed, a registration
    that passes the form check and whose write succeeds replaces it by a
    file that holds the new record alone: no name is taken, and whatever
    the file held is gone. *)
Theorem register_on_unreadable_file_starts_over username password file env h :
  trim (js_or_undefined username []) ≠ [] →
  js_or_undefined password [] ≠ [] →
  (∀ data, users_file h ≠ Json data) →
  reg_write env = UsersWriteOk →
  users_file (api_register toLowerCase sha256hex username password file env h).1.2
    = Json [new_user sha256hex (trim (js_or_undefined username []))
              (js_or_undefined password []) file env].
Proof.
  intros Hn Hp Hbad Hw.
  assert (Hempty : readJSON (users_file h) = []).
  { destruct (users_file h) as [| | |data]; try done. by destruct (Hbad data). }
  rewrite register_new, Hw; [| done | done |].
  - cbn zeta. simpl. by rewrite Hempty.
  - by rewrite Hempty.
Qed.
End route_facts.

(** X20. The upload route answers 400 without a file; with one it
    answers 200 with the url ["/uploads/" + filename], and that url sent
    as ["send-image"] from a socket that carries a user is never taken
    for empty: it is persisted and announced as the image of a new
    message. *)
Theorem uploaded_image_is_accepted h sid user filename env :
  sockets h !! sid = Some (Some user) →
  write_file env = WriteOk →
  upload_chat None = bad_request FailBody ∧
  ∃ url h' msg,
    upload_chat (Some filename) = ok (UrlBody url) ∧
    url = lit "/uploads/" ++ filename ∧
    dispatch (SendImage sid url env) h
      = (Resolved (), h', [IoEmit (NewMessage msg)]) ∧
    Message.content msg = Image url ∧
    last (api_messages h') = Some msg.
Proof.
  intros Hs Hw. split; [done|].
  eexists (lit "/uploads/" ++ filename), _,
    (make_msg user (Image (lit "/uploads/" ++ filename)) env).
  split; [done|]. split; [done|]. split.
  { rewrite (dispatch_accepted h _ sid user
               (Image (lit "/uploads/" ++ filename)) env Hs);
      [by apply persist_ok | done]. }
  split; [done|].
  unfold api_messages. simpl. rewrite push_bounded_snoc. apply last_snoc.
Qed.

(** X21. A record built by registration has a colour that is never
    empty, so a message sent by that user carries the user's own colour
    and profile path: the ["#fff"] fallback is not used. *)
Theorem registered_user_messages_carry_profile digest name pw file renv c env :
  (reg_color renv < 16777215)%N →
  let u := new_user digest name pw file renv in
  let msg := make_msg (safe u) c env in
  Message.color msg = User.color u ∧
  Message.color msg ≠ lit "#fff" ∧
  Message.profile msg = User.profile u ∧
  Message.username msg = name.
Proof.
  intros Hn. cbn zeta.
  destruct (randomColor_format_aux _ Hn) as (digits & Heq & Hlen).
  unfold make_msg, new_user, safe. cbn [Message.color Message.profile
    Message.username SafeUser.color SafeUser.profile SafeUser.username
    User.color User.profile User.username].
  rewrite js_or_nil, Heq. simpl js_or.
  repeat split; try done.
  intros Hfff. apply (f_equal length) in Hfff. simpl in Hfff.
  change (length (lit "#fff")) with 4 in Hfff. lia.
Qed.

(** * The further properties at work *)


Lemma broken_lobby_s1 : sockets broken_lobby !! s1 = Some (Some (safe alice)).
Proof. exact lobby_s1. Qed.


Lemma carol_registered :
  api_register ascii_lower toy_digest carol_name carol_pw carol_file
    carol_env lobby
  = (Resolved (ok (UserBody (safe carol))), with_carol, []).
Proof. vm_compute. reflexivity. Qed.


Lemma accepted_text_is_trimmed_witness :
  sockets lobby !! s1 = Some (Some (safe alice)) ∧
  trim (lit " hi ") ≠ [] ∧
  write_file env_ok = WriteOk ∧
  ∃ h' msg stored before after,
    dispatch (SendMessage s1 (lit " hi ") env_ok) lobby
      = (Resolved (), h', [IoEmit (NewMessage msg)]) ∧
    Message.content msg = Text stored ∧
    lit " hi " = before ++ stored ++ after ∧
    trim stored = stored.
Proof.
  assert (H2 : trim (lit " hi ") ≠ []) by discriminate.
  split; [exact lobby_s1|]. split; [exact H2|]. split; [reflexivity|].
  destruct (accepted_text_is_trimmed lobby s1 (lit " hi ") env_ok (safe alice)
              lobby_s1 H2 eq_refl)
    as (h' & msg & stored & p & q & Hd & _ & Hc & Hsp & _ & _ & _ & _ & Ht).
  exists h', msg, stored, p, q. repeat split; assumption.
Defined.

Lemma blank_image_url_is_kept_witness :
  sockets lobby !! s1 = Some (Some (safe alice)) ∧
  lit "  " ≠ [] ∧
  Forall (λ c, is_white_space c = true) (lit "  ") ∧
  write_file env_ok = WriteOk ∧
  dispatch (SendMessage s1 (lit "  ") env_ok) lobby = (Resolved (), lobby, []) ∧
  ∃ h' msg,
    dispatch (SendImage s1 (lit "  ") env_ok) lobby
      = (Resolved (), h', [IoEmit (NewMessage msg)]) ∧
    Message.content msg = Image (lit "  ").
Proof.
  assert (H2 : lit "  " ≠ []) by discriminate.
  assert (H3 : Forall (λ c, is_white_space c = true) (lit "  "))
    by (repeat constructor).
  split; [exact lobby_s1|]. split; [exact H2|]. split; [exact H3|].
  split; [reflexivity|].
  destruct (blank_image_url_is_kept lobby s1 (lit "  ") env_ok (safe alice)
              lobby_s1 H2 H3 eq_refl) as (Ht & h' & msg & Hd & Hc & _).
  split; [exact Ht|]. exists h', msg. split; assumption.
Defined.

Lemma new_message_reaches_every_live_socket_witness :
  sockets lobby !! s1 = Some (Some (safe alice)) ∧
  accepted_body (SendMessage s1 (lit "hi") env_ok)
    = Some (s1, Text (lit "hi"), env_ok) ∧
  write_file env_ok = WriteOk ∧
  receives (dispatch (SendMessage s1 (lit "hi") env_ok) lobby).1.2 s1
           (dispatch (SendMessage s1 (lit "hi") env_ok) lobby).2
    = [NewMessage (make_msg (safe alice) (Text (lit "hi")) env_ok)].
Proof.
  split; [exact lobby_s1|]. split; [reflexivity|]. split; [reflexivity|].
  exact (proj1 (new_message_reaches_every_live_socket lobby
                  (SendMessage s1 (lit "hi") env_ok) s1 (safe alice)
                  (Text (lit "hi")) env_ok lobby_s1 eq_refl eq_refl)).
Defined.

Lemma send_on_unreadable_log_restarts_history_witness :
  sockets broken_lobby !! s1 = Some (Some (safe alice)) ∧
  accepted_body (SendMessage s1 (lit "hi") env_ok)
    = Some (s1, Text (lit "hi"), env_ok) ∧
  write_file env_ok = WriteOk ∧
  (∀ data, messages_file broken_lobby ≠ Json data) ∧
  messages_file (dispatch (SendMessage s1 (lit "hi") env_ok) broken_lobby).1.2
    = Json [make_msg (safe alice) (Text (lit "hi")) env_ok].
Proof.
  assert (H4 : ∀ data, messages_file broken_lobby ≠ Json data)
    by (intros data; discriminate).
  split; [exact broken_lobby_s1|]. split; [reflexivity|].
  split; [reflexivity|]. split; [exact H4|].
  exact (send_on_unreadable_log_restarts_history broken_lobby
           (SendMessage s1 (lit "hi") env_ok) s1 (safe alice)
           (Text (lit "hi")) env_ok broken_lobby_s1 eq_refl eq_refl H4).
Defined.




Lemma socket_events_file_frame_witness :
  users_file (dispatch (Auth s2 (lit "u2")) lobby).1.2 = users_file lobby ∧
  is_Some (accepted_body (SendMessage s1 (lit "hi") env_ok)) ∧
  online (dispatch (SendMessage s1 (lit "hi") env_ok) lobby).1.2 = online lobby.
Proof.
  split.
  { exact (proj1 (socket_events_file_frame (Auth s2 (lit "u2")) lobby)). }
  assert (H : is_Some (accepted_body (SendMessage s1 (lit "hi") env_ok)))
    by (eexists; reflexivity).
  split; [exact H|].
  exact (proj1 (proj2 (proj2 (socket_events_file_frame
                                (SendMessage s1 (lit "hi") env_ok) lobby)) H)).
Defined.

Lemma randomColor_format_witness :
  (1193046 < 16777215)%N ∧
  ∃ digits, randomColor 1193046 = 35%N :: digits ∧ length digits = 6.
Proof.
  assert (H : (1193046 < 16777215)%N) by reflexivity.
  split; [exact H|].
  destruct (randomColor_format 1193046 H) as (digits & He & Hl & _).
  exists digits. split; assumption.
Defined.

Lemma id_determines_clock_and_random_witness :
  Message.id (make_msg (safe alice) (Text (lit "a")) env_ok)
    = Message.id (make_msg (safe bob) (Image (lit "b")) env_ok) ∧
  now_id env_ok = now_id env_ok ∧ random36 env_ok = random36 env_ok.
Proof.
  assert (H : Message.id (make_msg (safe alice) (Text (lit "a")) env_ok)
              = Message.id (make_msg (safe bob) (Image (lit "b")) env_ok))
    by reflexivity.
  split; [exact H|].
  exact (proj1 id_determines_clock_and_random _ _ _ _ _ _ H).
Defined.

Lemma register_requires_name_and_password_witness :
  (trim (js_or_undefined (Some (lit "   ")) []) = [] ∨
   js_or_undefined carol_pw [] = []) ∧
  api_register ascii_lower toy_digest (Some (lit "   ")) carol_pw None
    carol_env lobby
  = (Resolved required_response, lobby, []).
Proof.
  assert (H : trim (js_or_undefined (Some (lit "   ")) []) = [] ∨
              js_or_undefined carol_pw [] = []) by (left; reflexivity).
  split; [exact H|].
  exact (proj2 (proj1 (register_requires_name_and_password ascii_lower
                         toy_digest (Some (lit "   ")) carol_pw None
                         carol_env lobby)) H).
Defined.

Lemma register_rejects_taken_name_witness :
  trim (js_or_undefined (Some (lit " ALICE")) []) ≠ [] ∧
  js_or_undefined carol_pw [] ≠ [] ∧
  alice ∈ readJSON (users_file lobby) ∧
  ascii_lower (User.username alice)
    = ascii_lower (trim (js_or_undefined (Some (lit " ALICE")) [])) ∧
  api_register ascii_lower toy_digest (Some (lit " ALICE")) carol_pw None
    carol_env lobby
  = (Resolved taken_response, lobby, []).
Proof.
  assert (H1 : trim (js_or_undefined (Some (lit " ALICE")) []) ≠ [])
    by discriminate.
  assert (H2 : js_or_undefined carol_pw [] ≠ []) by discriminate.
  assert (H3 : alice ∈ readJSON (users_file lobby)) by left.
  split; [exact H1|]. split; [exact H2|]. split; [exact H3|].
  split; [reflexivity|].
  exact (register_rejects_taken_name ascii_lower toy_digest
           (Some (lit " ALICE")) carol_pw None carol_env lobby alice
           H1 H2 H3 eq_refl).
Defined.


Lemma register_keeps_names_unique_witness :
  names_unique ascii_lower (readJSON (users_file lobby)) ∧
  (api_register ascii_lower toy_digest carol_name carol_pw carol_file
     carol_env lobby).1.1 = Resolved (ok (UserBody (safe carol))) ∧
  names_unique ascii_lower (readJSON (users_file with_carol)).
Proof.
  assert (H1 : names_unique ascii_lower (readJSON (users_file lobby))).
  { unfold names_unique. apply (bool_decide_unpack _). vm_compute. exact I. }
  assert (H2 : (api_register ascii_lower toy_digest carol_name carol_pw
                  carol_file carol_env lobby).1.1
               = Resolved (ok (UserBody (safe carol))))
    by (by rewrite carol_registered).
  split; [exact H1|]. split; [exact H2|].
  exact (register_keeps_names_unique ascii_lower toy_digest carol_name
           carol_pw carol_file carol_env lobby _ H1 H2).
Defined.


Lemma login_sound_and_uniform_witness :
  ∃ resp,
    api_login ascii_lower toy_digest (Some (lit "alice")) (Some (lit "nope"))
      lobby = (Resolved resp, lobby, []) ∧
    (status resp ≠ 200%N → resp = invalid_response).
Proof.
  destruct (login_sound_and_uniform ascii_lower toy_digest
              (Some (lit "alice")) (Some (lit "nope")) lobby)
    as (resp & Hl & _ & _ & Hu).
  exists resp. split; [exact Hl|]. apply Hu; discriminate.
Defined.


Lemma register_on_unreadable_file_starts_over_witness :
  trim (js_or_undefined carol_name []) ≠ [] ∧
  js_or_undefined carol_pw [] ≠ [] ∧
  (∀ data, users_file (set_files Malformed (Json []) lobby) ≠ Json data) ∧
  reg_write carol_env = UsersWriteOk ∧
  users_file (api_register ascii_lower toy_digest carol_name carol_pw
                carol_file carol_env (set_files Malformed (Json []) lobby)).1.2
    = Json [new_user toy_digest (trim (js_or_undefined carol_name []))
              (js_or_undefined carol_pw []) carol_file carol_env].
Proof.
  assert (H1 : trim (js_or_undefined carol_name []) ≠ []) by discriminate.
  assert (H2 : js_or_undefined carol_pw [] ≠ []) by discriminate.
  assert (H3 : ∀ data,
            users_file (set_files Malformed (Json []) lobby) ≠ Json data)
    by (intros data; discriminate).
  split; [exact H1|]. split; [exact H2|]. split; [exact H3|].
  split; [reflexivity|].
  exact (register_on_unreadable_file_starts_over ascii_lower toy_digest
           carol_name carol_pw carol_file carol_env
           (set_files Malformed (Json []) lobby) H1 H2 H3 eq_refl).
Defined.

Lemma uploaded_image_is_accepted_witness :
  sockets lobby !! s1 = Some (Some (safe alice)) ∧
  write_file env_ok = WriteOk ∧
  ∃ url h' msg,
    upload_chat (Some (lit "17-abc.png")) = ok (UrlBody url) ∧
    dispatch (SendImage s1 url env_ok) lobby
      = (Resolved (), h', [IoEmit (NewMessage msg)]) ∧
    Message.content msg = Image url.
Proof.
  split; [exact lobby_s1|]. split; [reflexivity|].
  destruct (uploaded_image_is_accepted lobby s1 (safe alice)
              (lit "17-abc.png") env_ok lobby_s1 eq_refl)
    as (_ & url & h' & msg & Hu & _ & Hd & Hc & _).
  exists url, h', msg. split; [exact Hu|]. split; [exact Hd | exact Hc].
Defined.

Lemma registered_user_messages_carry_profile_witness :
  (reg_color carol_env < 16777215)%N ∧
  Message.color (make_msg (safe carol) (Text (lit "hi")) env_ok)
    = User.color carol.
Proof.
  assert (H : (reg_color carol_env < 16777215)%N) by reflexivity.
  split; [exact H|].
  exact (proj1 (registered_user_messages_carry_profile toy_digest
                  (lit "Carol") (lit "pw") carol_file carol_env
                  (Text (lit "hi")) env_ok H)).
Defined.

(** * Handlers interleaved *)

(** ** A handler that runs with nothing in between is [dispatch] *)













(** ** Sends one after another, and sends that overlap *)


Lemma sent_message_sockets h1 h2 i :
  sockets h1 = sockets h2 → sent_message h1 i = sent_message h2 i.
Proof. unfold sent_message. by intros ->. Qed.









(** ** Presence under any interleaving *)

Lemma obj_get_Some_key {V} k (v : V) o : obj_get k o = Some v → k ∈ o.*1.
Proof.
  intros H. destruct (decide (k ∈ o.*1)) as [|Hn]; [done|].
  apply obj_get_None in Hn. congruence.
Qed.

Lemma known_socket_same σ σ' sid :
  sockets (hub σ') = sockets (hub σ) → detached σ' = detached σ →
  known_socket σ sid → known_socket σ' sid.
Proof. unfold known_socket, connected. by intros -> ->. Qed.

(** Steps that touch only the files and the suspended handlers. *)
Lemma server_ok_frame σ σ' :
  server_ok σ →
  online (hub σ') = online (hub σ) →
  sockets (hub σ') = sockets (hub σ) →
  detached σ' = detached σ →
  Forall (λ t, known_socket σ (task_socket t)) (tasks σ') →
  server_ok σ'.
Proof.
  intros (Hnd & Hlive & Hkeys & Hts) Ho Hs Hd Hts'.
  unfold server_ok. rewrite Ho, Hs. repeat split; try done.
  - intros sid Hin. by apply (known_socket_same σ), Hkeys.
  - eapply Forall_impl; [exact Hts'|]. intros t. by apply known_socket_same.
Qed.

Lemma server_calm_frame σ σ' :
  server_calm σ →
  online (hub σ') = online (hub σ) →
  sockets (hub σ') = sockets (hub σ) →
  Forall (λ t, ∀ sid, awaits_users sid t → connected (hub σ) sid) (tasks σ') →
  server_calm σ'.
Proof.
  intros (Hkeys & Hts) Ho Hs Hts'. unfold server_calm, connected in *.
  rewrite Ho, Hs. by split.
Qed.

Lemma start_spawn_ok σ t :
  server_ok σ → connected (hub σ) (task_socket t) → server_ok (spawn t σ).
Proof.
  intros Hok Hc. apply (server_ok_frame σ); try done.
  simpl. apply Forall_app. split; [apply Hok|].
  constructor; [by left | constructor].
Qed.

Lemma start_ok i σ : server_ok σ → server_ok (start i σ).1.
Proof.
  intros Hok. pose proof Hok as (Hnd & Hlive & Hkeys & Hts).
  destruct i as [sid|sid userId|sid text env|sid url env|sid]; unfold start.
  - case_decide as Hd; [done|].
    unfold dispatch. case_decide as Hc; [by destruct σ|].
    unfold open_socket. simpl. unfold server_ok. simpl.
    assert (Hmono : ∀ s, known_socket σ s →
      known_socket (mkServer (mkHub (users_file (hub σ)) (messages_file (hub σ))
        (online (hub σ)) (<[sid:=None]> (sockets (hub σ)))) (detached σ)
        (tasks σ)) s).
    { intros s [Hs|Hs]; [left|by right]. unfold connected in *. simpl.
      rewrite lookup_insert. by case_decide. }
    repeat split; try done.
    + intros s user. rewrite lookup_insert. case_decide as Hs; [|apply Hlive].
      subst s. intros [= <-]. apply obj_get_None. intros Hin.
      destruct (Hkeys _ Hin); [by destruct Hc | by destruct Hd].
    + intros s Hin. by apply Hmono, Hkeys.
    + eapply Forall_impl; [exact Hts|]. intros t. apply Hmono.
  - case_decide; [|done]. by apply start_spawn_ok.
  - case_decide; [|done]. destruct (mjoin _); [|done].
    destruct (trim _); [done|]. by apply start_spawn_ok.
  - case_decide; [|done]. destruct (mjoin _); [|done].
    destruct url; [done|]. by apply start_spawn_ok.
  - destruct (sockets (hub σ) !! sid) as [user|] eqn:Hs; [|done].
    assert (Hc : connected (hub σ) sid) by (by unfold connected; rewrite Hs).
    rewrite dispatch_disconnect, on_disconnect_eq by done.
    cbn [online sockets users_file messages_file].
    assert (Hmono : ∀ o s, known_socket σ s →
      known_socket (mkServer (mkHub (users_file (hub σ)) (messages_file (hub σ))
        o (delete sid (sockets (hub σ)))) (<[sid:=user]> (detached σ))
        (tasks σ)) s).
    { intros o s [Hk|Hk]; unfold known_socket, connected in *; simpl.
      - destruct (decide (s = sid)) as [->|Hne].
        + right. by rewrite lookup_insert_eq.
        + left. by rewrite lookup_delete_ne.
      - right. rewrite lookup_insert. by case_decide. }
    destruct (obj_get sid (online (hub σ))) as [u|] eqn:Hget;
      unfold server_ok; simpl; repeat split.
    + by apply obj_delete_NoDup.
    + intros s x. rewrite lookup_delete, obj_get_delete.
      case_decide as Hne; [done|]. rewrite decide_False by done. apply Hlive.
    + intros s Hin. apply obj_delete_keys in Hin as [_ Hin].
      by apply Hmono, Hkeys.
    + eapply Forall_impl; [exact Hts|]. intros t. apply Hmono.
    + done.
    + intros s x. rewrite lookup_delete.
      case_decide as Hne; [done|]. apply Hlive.
    + intros s Hin. by apply Hmono, Hkeys.
    + eapply Forall_impl; [exact Hts|]. intros t. apply Hmono.
Qed.

Lemma io_ok k σ : server_ok σ → server_ok (io k σ).
Proof.
  intros Hok. pose proof Hok as (_ & _ & _ & Hts). unfold io.
  destruct (tasks σ !! k) as [t|] eqn:E; [|done].
  pose proof (Forall_lookup_1 _ _ _ _ Hts E) as Ht.
  destruct t as [sid uid [got|]|sid [got|]|sid c env [got|]
                |sid msg data w [b|]]; try done;
    try (apply (server_ok_frame σ); try done; simpl;
         by apply Forall_insert).
  destruct w; apply (server_ok_frame σ); try done; simpl;
    by apply Forall_insert.
Qed.

Lemma resume_ok k σ : server_ok σ → server_ok (resume k σ).1.
Proof.
  intros Hok. pose proof Hok as (Hnd & Hlive & Hkeys & Hts). unfold resume.
  destruct (tasks σ !! k) as [t|] eqn:E; [|done].
  pose proof (Forall_lookup_1 _ _ _ _ Hts E) as Ht. simpl in Ht.
  destruct t as [sid uid [users|]|sid [got|]|sid c env [got|]
                |sid msg data w [[|]|]]; try done;
    try (apply (server_ok_frame σ); try done; simpl;
         by apply Forall_delete).
  - destruct (List.find _ users) as [user|].
    2: { apply (server_ok_frame σ); try done. by apply Forall_delete. }
    cbn [fst]. unfold bind_user, set_socket_user.
    destruct (decide (connected (hub σ) sid)) as [Hc|Hc]; simpl.
    + assert (Hmono : ∀ s, known_socket σ s →
        known_socket (mkServer (mkHub (users_file (hub σ))
          (messages_file (hub σ)) (obj_set sid (safe user) (online (hub σ)))
          (alter (λ _, Some (safe user)) sid (sockets (hub σ))))
          (detached σ) (<[k:=AuthMessages sid None]> (tasks σ))) s).
      { intros s [Hk|Hk]; [left|by right]. by apply connected_alter. }
      unfold server_ok. simpl. repeat split.
      * by apply obj_set_NoDup.
      * intros s x. rewrite lookup_alter, obj_get_set.
        destruct Hc as [y Hy].
        destruct (decide (s = sid)) as [->|Hne].
        -- rewrite decide_True, Hy by done. by intros [= <-].
        -- rewrite decide_False by done. apply Hlive.
      * intros s Hin. apply obj_set_keys in Hin as [->|Hin].
        -- by apply Hmono.
        -- by apply Hmono, Hkeys.
      * apply Forall_insert; [|by apply Hmono].
        eapply Forall_impl; [exact Hts|]. intros t. apply Hmono.
    + assert (Hmono : ∀ s, known_socket σ s →
        known_socket (mkServer (mkHub (users_file (hub σ))
          (messages_file (hub σ)) (obj_set sid (safe user) (online (hub σ)))
          (sockets (hub σ)))
          (alter (λ _, Some (safe user)) sid (detached σ))
          (<[k:=AuthMessages sid None]> (tasks σ))) s).
      { intros s [Hk|Hk]; [by left|right]. simpl.
        rewrite lookup_alter. case_decide; [subst|done].
        by apply fmap_is_Some. }
      unfold server_ok. simpl. repeat split.
      * by apply obj_set_NoDup.
      * intros s x Hs. rewrite obj_get_set, decide_False; [by apply Hlive|].
        intros ->. apply Hc. unfold connected. by rewrite Hs.
      * intros s Hin. apply obj_set_keys in Hin as [->|Hin].
        -- by apply Hmono.
        -- by apply Hmono, Hkeys.
      * apply Forall_insert; [|by apply Hmono].
        eapply Forall_impl; [exact Hts|]. intros t. apply Hmono.
  - unfold socket_user.
    destruct (match sockets (hub σ) !! sid with
              | Some u => u | None => mjoin (detached σ !! sid) end);
      apply (server_ok_frame σ); try done; simpl;
      first [by apply Forall_insert | by apply Forall_delete].
Qed.

Lemma small_step_ok s σ : server_ok σ → server_ok (small_step s σ).1.
Proof.
  intros Hok. destruct s as [i|k|k|users messages]; simpl.
  - by apply start_ok.
  - by apply io_ok.
  - by apply resume_ok.
  - apply (server_ok_frame σ); try done. apply Hok.
Qed.

Lemma reached_ok σ : reached σ → server_ok σ.
Proof.
  induction 1 as [users messages|s σ _ IH].
  - unfold server_ok. simpl. repeat split.
    + constructor.
    + intros sid user. by rewrite lookup_empty.
    + intros sid Hin. by apply elem_of_nil in Hin.
    + constructor.
  - by apply small_step_ok.
Qed.

Lemma reached_exec steps : ∀ σ, reached σ → reached (exec σ steps).1.
Proof.
  induction steps as [|s steps IH]; intros σ Hσ; simpl; [done|].
  pose proof (reached_step s σ Hσ) as H1.
  destruct (small_step s σ) as [σ1 out1]. specialize (IH σ1 H1).
  by destruct (exec σ1 steps).
Qed.

Lemma calm_reached_reached σ : calm_reached σ → reached σ.
Proof. induction 1; by constructor. Qed.

Lemma start_calm i σ :
  server_calm σ →
  (∀ sid, i = Disconnect sid → Forall (λ t, ¬ awaits_users sid t) (tasks σ)) →
  server_calm (start i σ).1.
Proof.
  intros Hcalm Hquiet. pose proof Hcalm as (Hkeys & Hts).
  destruct i as [sid|sid userId|sid text env|sid url env|sid]; unfold start.
  - case_decide as Hd; [done|].
    unfold dispatch. case_decide as Hc; [by destruct σ|].
    unfold open_socket, server_calm, connected in *. simpl.
    assert (Hmono : ∀ s, is_Some (sockets (hub σ) !! s) →
                         is_Some (<[sid:=None]> (sockets (hub σ)) !! s)).
    { intros s Hs. rewrite lookup_insert. by case_decide. }
    split; [intros s Hin; by apply Hmono, Hkeys|].
    eapply Forall_impl; [exact Hts|]. intros t Ht s Hs. by apply Hmono, Ht.
  - case_decide; [|done]. apply (server_calm_frame σ); try done. simpl.
    apply Forall_app. split; [done|]. constructor; [|constructor].
    by intros s <-.
  - case_decide; [|done]. destruct (mjoin _); [|done].
    destruct (trim _); [done|]. apply (server_calm_frame σ); try done.
    simpl. apply Forall_app. split; [done|]. by repeat constructor.
  - case_decide; [|done]. destruct (mjoin _); [|done].
    destruct url; [done|]. apply (server_calm_frame σ); try done.
    simpl. apply Forall_app. split; [done|]. by repeat constructor.
  - destruct (sockets (hub σ) !! sid) as [user|] eqn:Hs; [|done].
    assert (Hc : connected (hub σ) sid) by (by unfold connected; rewrite Hs).
    specialize (Hquiet sid eq_refl).
    rewrite dispatch_disconnect, on_disconnect_eq by done.
    cbn [online sockets users_file messages_file].
    assert (Hts' : Forall (λ t, ∀ s, awaits_users s t →
                     is_Some (delete sid (sockets (hub σ)) !! s)) (tasks σ)).
    { apply Forall_forall. intros t Hin s Hs'.
      rewrite Forall_forall in Hts, Hquiet.
      rewrite lookup_delete_ne; [by apply (Hts t)|].
      intros <-. by apply (Hquiet t). }
    destruct (obj_get sid (online (hub σ))) as [u|] eqn:Hget;
      unfold server_calm, connected; simpl; (split; [|done]).
    + intros s Hin. apply obj_delete_keys in Hin as [Hne Hin].
      rewrite lookup_delete_ne by done. by apply Hkeys.
    + intros s Hin. rewrite lookup_delete_ne; [by apply Hkeys|].
      intros <-. apply obj_get_None in Hget. by apply Hget.
Qed.

Lemma io_calm k σ : server_calm σ → server_calm (io k σ).
Proof.
  intros Hcalm. pose proof Hcalm as (_ & Hts). unfold io.
  destruct (tasks σ !! k) as [t|] eqn:E; [|done].
  pose proof (Forall_lookup_1 _ _ _ _ Hts E) as Ht.
  destruct t as [sid uid [got|]|sid [got|]|sid c env [got|]
                |sid msg data w [b|]]; try done;
    try (apply (server_calm_frame σ); try done; simpl;
         by apply Forall_insert).
  destruct w; apply (server_calm_frame σ); try done; simpl;
    by apply Forall_insert.
Qed.

Lemma resume_calm k σ : server_calm σ → server_calm (resume k σ).1.
Proof.
  intros Hcalm. pose proof Hcalm as (Hkeys & Hts). unfold resume.
  destruct (tasks σ !! k) as [t|] eqn:E; [|done].
  pose proof (Forall_lookup_1 _ _ _ _ Hts E) as Ht. simpl in Ht.
  destruct t as [sid uid [users|]|sid [got|]|sid c env [got|]
                |sid msg data w [[|]|]]; try done;
    try (apply (server_calm_frame σ); try done; simpl;
         by apply Forall_delete).
  - destruct (List.find _ users) as [user|].
    2: { apply (server_calm_frame σ); try done. by apply Forall_delete. }
    cbn [fst]. pose proof (Ht sid eq_refl) as Hc.
    unfold bind_user, set_socket_user. rewrite decide_True by done.
    unfold server_calm. simpl. split.
    + intros s Hin. apply connected_alter.
      apply obj_set_keys in Hin as [->|Hin]; [done | by apply Hkeys].
    + apply Forall_insert; [|done].
      eapply Forall_impl; [exact Hts|]. intros t Hu s Hs.
      by apply connected_alter, Hu.
  - unfold socket_user.
    destruct (match sockets (hub σ) !! sid with
              | Some u => u | None => mjoin (detached σ !! sid) end);
      apply (server_calm_frame σ); try done; simpl;
      first [by apply Forall_insert | by apply Forall_delete].
Qed.

Lemma calm_reached_calm σ : calm_reached σ → server_calm σ.
Proof.
  induction 1 as [users messages|s σ _ IH Hquiet].
  - split; simpl; [|constructor]. intros sid Hin. by apply elem_of_nil in Hin.
  - destruct s as [i|k|k|users messages]; simpl.
    + apply start_calm; [done|]. intros sid ->. by apply Hquiet.
    + by apply io_calm.
    + by apply resume_calm.
    + apply (server_calm_frame σ); try done. apply IH.
Qed.

Lemma calm_exec steps : ∀ σ,
  calm_reached σ →
  Forall (λ s, ∀ sid, s ≠ Start (Disconnect sid)) steps →
  calm_reached (exec σ steps).1.
Proof.
  induction steps as [|s steps IH]; intros σ Hσ Hsteps; simpl; [done|].
  apply Forall_cons in Hsteps as [Hs Hsteps].
  assert (H1 : calm_reached (small_step s σ).1).
  { apply calm_step; [done|]. intros sid ->. by destruct (Hs sid). }
  destruct (small_step s σ) as [σ1 out1]. specialize (IH σ1 H1 Hsteps).
  by destruct (exec σ1 steps).
Qed.

(** In a calm state every entry belongs to a live socket with that user. *)
Lemma calm_entries_live σ :
  server_ok σ → server_calm σ →
  ∀ c u, obj_get c (online (hub σ)) = Some u ↔
         sockets (hub σ) !! c = Some (Some u).
Proof.
  intros (_ & Hlive & _ & _) (Hkeys & _) c u. split.
  - intros Hget. destruct (Hkeys c (obj_get_Some_key _ _ _ Hget)) as [x Hx].
    rewrite (Hlive _ _ Hx) in Hget. by subst x.
  - apply Hlive.
Qed.

(** What the disconnect handler does from a state where keys are unique
    and the entry of the socket is its [user]. *)
Lemma disconnect_core h sid :
  NoDup (online h).*1 →
  (∀ user, sockets h !! sid = Some user → obj_get sid (online h) = user) →
  connected h sid →
  ∃ h' out,
    let snapshot := UpdateUsers (Object_values (online h')) in
    dispatch (Disconnect sid) h = (Resolved (), h', out) ∧
    sockets h' = delete sid (sockets h) ∧
    online h' = obj_delete sid (online h) ∧
    obj_get sid (online h') = None ∧
    entries_of sid (online h') = [] ∧
    receives h' sid out = [] ∧
    match sockets h !! sid with
    | Some (Some _) =>
        out = [IoEmit snapshot] ∧
        ∀ c, connected h c → c ≠ sid → receives h' c out = [snapshot]
    | _ => out = [] ∧ online h' = online h
    end.
Proof.
  intros Hnd Hagree Hc.
  rewrite dispatch_disconnect, on_disconnect_eq by done.
  cbn [online sockets].
  assert (Hgone : obj_get sid (obj_delete sid (online h)) = None).
  { by rewrite obj_get_delete, decide_True. }
  assert (Hnone : entries_of sid (obj_delete sid (online h)) = []).
  { apply filter_key_absent. by apply obj_get_None. }
  destruct Hc as [x Hx]. rewrite Hx. specialize (Hagree x Hx).
  destruct (obj_get sid (online h)) as [u0|] eqn:E; subst x.
  - eexists _, _. cbn zeta. split; [done|]. cbn [online sockets].
    repeat split; try done.
    + unfold receives, connected. simpl.
      rewrite decide_False; [done|]. rewrite lookup_delete_eq. by intros [].
    + intros c Hcc Hne. unfold receives, connected. simpl.
      rewrite decide_True; [done|]. by rewrite lookup_delete_ne.
  - exists (mkHub (users_file h) (messages_file h) (online h)
                  (delete sid (sockets h))), [].
    cbn zeta. cbn [online sockets]. rewrite (obj_delete_absent _ _ E) in *.
    by repeat split.
Qed.

(** C8 (amended). However handlers interleave, the presence entry of a
    live socket is its [user] (none before its auth has succeeded), and
    a ["disconnect"] on a live socket takes the socket away and leaves
    no entry under its id at that moment; when the socket carried a
    user, the new snapshot is emitted with [io.emit], which every
    remaining socket receives and the closed one does not; when it
    carried none, nothing is emitted and presence is unchanged. When no
    socket is closed while an ["auth"] on it is suspended at line 135,
    every presence entry belongs to a live socket that carries that
    user, before and after the disconnect. *)
Theorem disconnect_removes_live_entry σ sid :
  reached σ → connected (hub σ) sid →
  (∀ c user, sockets (hub σ) !! c = Some user →
             obj_get c (online (hub σ)) = user) ∧
  (calm_reached σ →
     ∀ c u, obj_get c (online (hub σ)) = Some u →
            sockets (hub σ) !! c = Some (Some u)) ∧
  ∃ σ' out,
    let snapshot := UpdateUsers (Object_values (online (hub σ'))) in
    small_step (Start (Disconnect sid)) σ = (σ', out) ∧
    sockets (hub σ') = delete sid (sockets (hub σ)) ∧
    online (hub σ') = obj_delete sid (online (hub σ)) ∧
    obj_get sid (online (hub σ')) = None ∧
    entries_of sid (online (hub σ')) = [] ∧
    receives (hub σ') sid out = [] ∧
    match sockets (hub σ) !! sid with
    | Some (Some _) =>
        out = [IoEmit snapshot] ∧
        ∀ c, connected (hub σ) c → c ≠ sid →
             receives (hub σ') c out = [snapshot]
    | _ => out = [] ∧ online (hub σ') = online (hub σ)
    end ∧
    (calm_reached σ →
     Forall (λ t, ¬ awaits_users sid t) (tasks σ) →
     ∀ c u, obj_get c (online (hub σ')) = Some u →
            sockets (hub σ') !! c = Some (Some u)).
Proof.
  intros Hreach Hc.
  pose proof (reached_ok _ Hreach) as Hok.
  pose proof Hok as (Hnd & Hlive & _ & _).
  split; [done|]. split.
  { intros Hcalm c u. apply calm_entries_live; [done|].
    by apply calm_reached_calm. }
  destruct (disconnect_core (hub σ) sid Hnd (Hlive sid) Hc)
    as (h' & out & Hd & Hrest).
  assert (Hstep : small_step (Start (Disconnect sid)) σ
                  = (mkServer h' (match sockets (hub σ) !! sid with
                                  | Some user => <[sid:=user]> (detached σ)
                                  | None => detached σ
                                  end) (tasks σ), out)).
  { cbn [small_step]. unfold start.
    destruct (sockets (hub σ) !! sid) as [x|] eqn:Hx; [by rewrite Hd|].
    destruct Hc as [y Hy]. congruence. }
  eexists _, out. cbn zeta. split; [exact Hstep|]. cbn [hub].
  destruct Hrest as (H1 & H2 & H3 & H4 & H5 & H6).
  repeat (split; [done|]).
  intros Hcalm Hquiet c u.
  assert (Hcalm' : calm_reached (small_step (Start (Disconnect sid)) σ).1).
  { apply calm_step; [done|]. by intros s [= <-]. }
  rewrite Hstep in Hcalm'. cbn [fst] in Hcalm'.
  apply (calm_entries_live _ (reached_ok _ (calm_reached_reached _ Hcalm'))
           (calm_reached_calm _ Hcalm')).
Qed.


(** * The interleaved statements at work *)

Lemma lobby_server_calm : calm_reached lobby_server.
Proof.
  assert (H : lobby_server
              = (exec booted (serial 0 [Connection s1; Connection s2;
                                        Auth s1 (lit "u1")])).1)
    by (vm_compute; reflexivity).
  rewrite H. apply calm_exec; [apply calm_boot|].
  repeat constructor; intros sid; discriminate.
Qed.

Lemma lobby_server_reached : reached lobby_server.
Proof. apply calm_reached_reached, lobby_server_calm. Qed.



(** C8 as stated fails: a socket authenticates and closes while its
    ["auth"] is suspended at line 135. The disconnect handler finds no
    entry; the handler then resumes, stores an entry under the id of the
    closed socket and announces it. No handler is left suspended and the
    entry belongs to no live socket. *)
Lemma presence_outlives_closed_socket :
  reached after_closing_during_auth.1 ∧
  tasks after_closing_during_auth.1 = [] ∧
  sockets (hub after_closing_during_auth.1) !! s1 = None ∧
  obj_get s1 (online (hub after_closing_during_auth.1)) = Some (safe alice) ∧
  after_closing_during_auth.2
    = [IoEmit (UpdateUsers [safe alice]); SocketEmit s1 (LoadMessages [])] ∧
  ¬ (∀ σ, reached σ →
          ∀ c u, obj_get c (online (hub σ)) = Some u → connected (hub σ) c).
Proof.
  assert (Hreach : reached after_closing_during_auth.1).
  { apply reached_exec, reached_boot. }
  assert (Hclosed : sockets (hub after_closing_during_auth.1) !! s1 = None)
    by (vm_compute; reflexivity).
  assert (Hentry : obj_get s1 (online (hub after_closing_during_auth.1))
                   = Some (safe alice)) by (vm_compute; reflexivity).
  split; [done|]. split; [by vm_compute|]. split; [done|]. split; [done|].
  split; [by vm_compute|].
  intros Hclaim. destruct (Hclaim _ Hreach s1 (safe alice) Hentry) as [x Hx].
  congruence.
Qed.

Lemma disconnect_removes_live_entry_witness :
  reached lobby_server ∧ connected (hub lobby_server) s1 ∧
  ∃ σ' out,
    small_step (Start (Disconnect s1)) lobby_server = (σ', out) ∧
    obj_get s1 (online (hub σ')) = None ∧
    receives (hub σ') s1 out = [].
Proof.
  assert (H1 : reached lobby_server) by exact lobby_server_reached.
  assert (H2 : connected (hub lobby_server) s1) by (eexists; exact lobby_s1).
  split; [exact H1|]. split; [exact H2|].
  destruct (disconnect_removes_live_entry lobby_server s1 H1 H2)
    as (_ & _ & σ' & out & Hd & _ & _ & Hg & _ & Hr & _).
  exists σ', out. split; [exact Hd|]. split; [exact Hg | exact Hr].
Defined.

